(** * The live backend-rebuild pipeline of the Vite/React/Express template

    A shallow embedding of [server/index.ts] and [server/vite.ts]:
    the bundle-artifact naming and pruning, the loader that swaps the
    route table, the change watcher, the development HTML fallback and
    the request logger.  Definitions come first, the theorems follow. *)

From Stdlib Require Import String Ascii List Bool Arith NArith ZArith Lia.
From Stdlib Require Import Permutation Sorted DecimalString DecimalN.
Import ListNotations.
Local Open Scope string_scope.

(* ================================================================== *)
(** * Part I: the model                                                *)
(* ================================================================== *)

(** ** JavaScript strings

    Paths, file names and HTML are modelled as [string]; one character
    stands for one UTF-16 code unit (the patterns that the code looks for
    are all ASCII). *)
Module JsString.

(** [s.startsWith(pre)] *)
Definition startsWith (s pre : string) : bool := String.prefix pre s.

(** [s.endsWith(suf)]: some tail of [s] is [suf]. *)
Fixpoint endsWith (s suf : string) : bool :=
  (s =? suf) ||
  match s with
  | EmptyString => false
  | String _ s' => endsWith s' suf
  end.

(** Removes [pre] from the front of [s] when it is there. *)
Fixpoint strip_prefix (pre s : string) : option string :=
  match pre, s with
  | EmptyString, _ => Some s
  | String a pre', String b s' =>
      if Ascii.eqb a b then strip_prefix pre' s' else None
  | String _ _, EmptyString => None
  end.

(** [s.indexOf(pat)], returned as the text before and after the first
    occurrence. *)
Fixpoint split_first (pat s : string) : option (string * string) :=
  match strip_prefix pat s with
  | Some post => Some (EmptyString, post)
  | None =>
      match s with
      | EmptyString => None
      | String c s' =>
          match split_first pat s' with
          | Some (pre, post) => Some (String c pre, post)
          | None => None
          end
      end
  end.

(** GetSubstitution for a string pattern (no capture groups): expands
    [$$], [$&], [$`] and [$'] in the replacement text; any other [$] is
    kept as it is. *)
Fixpoint GetSubstitution (matched before after repl : string) : string :=
  match repl with
  | EmptyString => EmptyString
  | String c rest =>
      if Ascii.eqb c "$" then
        match rest with
        | String d rest' =>
            if Ascii.eqb d "$" then
              String "$" (GetSubstitution matched before after rest')
            else if Ascii.eqb d "&" then
              matched ++ GetSubstitution matched before after rest'
            else if Ascii.eqb d "`" then
              before ++ GetSubstitution matched before after rest'
            else if Ascii.eqb d "'" then
              after ++ GetSubstitution matched before after rest'
            else String c (GetSubstitution matched before after rest)
        | EmptyString => String c EmptyString
        end
      else String c (GetSubstitution matched before after rest)
  end.

(** [s.replace(pat, repl)] with a string pattern: only the first
    occurrence is replaced; without an occurrence [s] is returned. *)
Definition replace (s pat repl : string) : string :=
  match split_first pat s with
  | Some (pre, post) => pre ++ GetSubstitution pat pre post repl ++ post
  | None => s
  end.

(** [x || d] on an optional string (undefined and the empty string are
    falsy). *)
Definition or_else (x : option string) (d : string) : string :=
  match x with
  | Some EmptyString | None => d
  | Some v => v
  end.

(** [\d] *)
Definition is_digit (c : ascii) : bool :=
  let n := nat_of_ascii c in ((48 <=? n) && (n <=? 57))%nat.

(** The longest run of digits at the front of [s], and what follows. *)
Fixpoint take_digits (s : string) : string * string :=
  match s with
  | EmptyString => (EmptyString, EmptyString)
  | String c s' =>
      if is_digit c then
        let (d, rest) := take_digits s' in (String c d, rest)
      else (EmptyString, s)
  end.

(** No character of [s] is [c]. *)
Fixpoint lacks (c : ascii) (s : string) : bool :=
  match s with
  | EmptyString => true
  | String a s' => negb (Ascii.eqb a c) && lacks c s'
  end.

End JsString.

(** ** JavaScript numbers that hold non-negative integers

    [parseInt] returns a Number: the integer rounded to the nearest
    double (ties to even), or Infinity from 2^1024 on.  Integers below
    2^53 are exact. *)
Module JsNumber.

Inductive number : Type :=
| Num (n : N)
| Infinity.

Definition to_number (n : N) : number :=
  if (n <? 2 ^ 53)%N then Num n
  else
    let e := (N.log2 n - 52)%N in
    let q := (n / 2 ^ e)%N in
    let r := (n mod 2 ^ e)%N in
    let half := (2 ^ (e - 1))%N in
    let q' :=
      if (r <? half)%N then q
      else if (half <? r)%N then (q + 1)%N
      else if N.even q then q else (q + 1)%N in
    let v := (q' * 2 ^ e)%N in
    if (2 ^ 1024 <=? v)%N then Infinity else Num v.

(** The value of a string of decimal digits (leading zeros allowed). *)
Definition decimal_value (s : string) : N :=
  match NilEmpty.uint_of_string s with
  | Some u => N.of_uint u
  | None => 0%N
  end.

(** [parseInt(s)] for [s] a non-empty string of decimal digits: what
    the group [(\d+)] of the bundle regex matched, or the default
    ["0"] (line 89).  Other texts are read by [Port.parseInt]. *)
Definition parseInt (s : string) : number := to_number (decimal_value s).

(** [`${n}`] for an integer below 10^21: its decimal digits. *)
Definition to_string (n : N) : string :=
  NilEmpty.string_of_uint (N.to_uint n).

(** [`${a}`] for a Number (below 10^21 when finite). *)
Definition number_to_string (a : number) : string :=
  match a with
  | Num n => to_string n
  | Infinity => "Infinity"
  end.

(** The sign of [a - b], as [Array.prototype.sort] reads the result of a
    comparator: Infinity - Infinity is NaN, which sort takes as 0. *)
Definition sub_sign (a b : number) : comparison :=
  match a, b with
  | Num x, Num y => N.compare x y
  | Infinity, Num _ => Gt
  | Num _, Infinity => Lt
  | Infinity, Infinity => Eq
  end.

(** [a <= b] on numbers. *)
Definition le (a b : number) : Prop := sub_sign a b <> Gt.

Definition eqb (a b : number) : bool :=
  match a, b with
  | Num x, Num y => N.eqb x y
  | Infinity, Infinity => true
  | _, _ => false
  end.

End JsNumber.

(** ** Bundle artifacts: naming, the timestamp regex, pruning
    ([loadBackend] lines 110-115 and [cleanupOldBundles]) *)
Module Bundles.
Import JsString JsNumber.

(** [`backend.dist.${timestamp}.cjs`], the file that [loadBackend] asks
    the bundler to write into [dist/server] for the clock reading
    [timestamp = Date.now()]. *)
Definition bundle_name (timestamp : N) : string :=
  "backend.dist." ++ to_string timestamp ++ ".cjs".

(** [path.join(dir, file)] for a normalised [dir] and a plain file name. *)
Definition path_join (dir file : string) : string := dir ++ "/" ++ file.

Definition distDir (cwd : string) : string := path_join cwd "dist/server".

Definition outfile (cwd : string) (timestamp : N) : string :=
  path_join (distDir cwd) (bundle_name timestamp).

(** One attempt of [/backend\.dist\.(\d+)\.cjs$/] at the front of [s]:
    the literal prefix, the greedy digit run (at least one digit; giving
    digits back cannot help, a digit is not a dot), then [.cjs] and the
    end of the input.  The result is capture group 1. *)
Definition regex_at (s : string) : option string :=
  match strip_prefix "backend.dist." s with
  | Some t =>
      let (d, rest) := take_digits t in
      if negb (d =? "") && (rest =? ".cjs") then Some d else None
  | None => None
  end.

(** [file.match(/backend\.dist\.(\d+)\.cjs$/)?.[1]]: the regex is not
    anchored on the left, so every start offset is tried in turn. *)
Fixpoint regex_group (s : string) : option string :=
  match regex_at s with
  | Some d => Some d
  | None =>
      match s with
      | EmptyString => None
      | String _ s' => regex_group s'
      end
  end.

Definition timestamp_of (file : string) : number :=
  parseInt (or_else (regex_group file) "0").

Record entry : Type := mkEntry {
  name : string;
  path : string;
  timestamp : number
}.

Definition mk_entry (dir file : string) : entry :=
  mkEntry file (path_join dir file) (timestamp_of file).

(** [(a, b) => b.timestamp - a.timestamp], read by its sign. *)
Definition comparefn (a b : entry) : comparison :=
  sub_sign (timestamp b) (timestamp a).

(** [Array.prototype.sort] is stable and the comparator above is a
    consistent one, so the result is the stable sorted arrangement;
    insertion from the right computes it. *)
Fixpoint insert (x : entry) (l : list entry) : list entry :=
  match l with
  | [] => [x]
  | y :: l' =>
      match comparefn x y with
      | Gt => y :: insert x l'
      | _ => x :: l
      end
  end.

Definition sort (l : list entry) : list entry := fold_right insert [] l.

(** [a] may stand before [b] in the descending order: the timestamp of
    [b] is not above that of [a]. *)
Definition before (a b : entry) : Prop := le (timestamp b) (timestamp a).

Definition is_bundle (file : string) : bool :=
  startsWith file "backend.dist." && endsWith file ".cjs".

Definition bundleFiles (files : list string) : list string :=
  filter is_bundle files.

(** Lines 84-94: nothing when there are at most 2 bundles, otherwise
    everything after the first 2 of the descending sort. *)
Definition filesToDelete (dir : string) (files : list string) : list entry :=
  let bundles := bundleFiles files in
  if (2 <? List.length bundles)%nat
  then skipn 2 (sort (map (mk_entry dir) bundles))
  else [].

(** The retained bundles: the first 2 of the same sort. *)
Definition filesToKeep (dir : string) (files : list string) : list entry :=
  firstn 2 (sort (map (mk_entry dir) (bundleFiles files))).

(** [dist/server] as the pass finds it.  [accessible]: [fs.access]
    resolves; [readable]: [fs.readdir] resolves, with [entries];
    [undeletable f]: [fs.unlink] of [f] rejects. *)
Record Disk : Type := mkDisk {
  accessible : bool;
  readable : bool;
  entries : list string;
  undeletable : string -> bool
}.

(** [fs.access(distDir)], [fs.readdir(distDir)] and [fs.unlink(path)]
    of a file of the directory; [None] when the promise rejects. *)
Definition fs_access (d : Disk) : option unit :=
  if accessible d then Some tt else None.

Definition fs_readdir (d : Disk) : option (list string) :=
  if readable d then Some (entries d) else None.

Definition fs_unlink (d : Disk) (file : string) : option Disk :=
  if undeletable d file then None
  else Some (mkDisk (accessible d) (readable d)
               (filter (fun f => negb (f =? file)) (entries d))
               (undeletable d)).

(** [cleanupOldBundles()]: the unlinks it issues.  The [forEach] starts
    one [fs.unlink] per file and does not wait for any of them; the
    promise of [cleanupOldBundles] resolves with all of them pending.
    A rejected [access] returns at once, a rejected [readdir] is caught
    by the outer [try]. *)
Definition cleanupOldBundles (cwd : string) (d : Disk) : list entry :=
  match fs_access d with
  | None => []
  | Some _ =>
      match fs_readdir d with
      | Some files => filesToDelete (distDir cwd) files
      | None => []
      end
  end.

(** One [fs.unlink(file.path)] settling inside its [try]: a rejection
    is caught and dropped (lines 97-101). *)
Definition unlink (d : Disk) (e : entry) : Disk :=
  match fs_unlink d (name e) with
  | Some d' => d'
  | None => d
  end.

Definition settle (d : Disk) (pending : list entry) : Disk :=
  fold_left unlink pending d.

(** A prune pass run to completion: the call and all its unlinks. *)
Definition prune (cwd : string) (d : Disk) : Disk :=
  settle d (cleanupOldBundles cwd d).

End Bundles.

(** ** The port setting ([index.ts] lines 174-175) *)
Module Port.
Import JsString JsNumber.

(** What [parseInt] returns: NaN, or an integer with its sign
    ([-0] is [Int true (Num 0)]). *)
Inductive parsed : Type :=
| NaN
| Int (negative : bool) (magnitude : number).

(** The white space and line terminators that [parseInt] skips, among
    the code units below 256: TAB, LF, VT, FF, CR, SP and NBSP. *)
Definition is_space (c : ascii) : bool :=
  let n := nat_of_ascii c in
  (((9 <=? n) && (n <=? 13)) || (n =? 32) || (n =? 160))%nat.

Fixpoint trim_start (s : string) : string :=
  match s with
  | EmptyString => EmptyString
  | String c s' => if is_space c then trim_start s' else s
  end.

(** The optional sign at the front, and the text after it. *)
Definition sign_of (s : string) : bool * string :=
  match s with
  | EmptyString => (false, s)
  | String c s' =>
      if Ascii.eqb c "-" then (true, s')
      else if Ascii.eqb c "+" then (false, s')
      else (false, s)
  end.

(** [parseInt(s, 10)]: leading white space is skipped, a sign is read,
    then the longest run of decimal digits; whatever follows is
    ignored, and without a digit the result is NaN.  With radix 10
    given, a [0x] prefix has no special meaning. *)
Definition parseInt (s : string) : parsed :=
  let (negative, rest) := sign_of (trim_start s) in
  let (Z, _) := take_digits rest in
  if (Z =? "")%string then NaN
  else Int negative (to_number (decimal_value Z)).

(** The check that [app.listen(port, ...)] makes of a numeric port
    before it does anything else ([validatePort] of Node's [net]): an
    integer from 0 to 65535 passes ([-0] as 0); for any other number
    [listen] throws a RangeError. *)
Definition validatePort (port : parsed) : option N :=
  match port with
  | Int negative (Num n) =>
      if ((n <=? 65535)%N && (negb negative || (n =? 0)%N))%bool
      then Some n else None
  | _ => None
  end.

End Port.

(** ** The process: router, console, loader, watcher, start-up
    ([server/index.ts] lines 63-64 and 109-200) *)
Module Backend.
Import JsString JsNumber Bundles.

(** What can be thrown at the steps of [loadBackend] and [main]. *)
Inductive exn : Type :=
| BuildError        (* [build(...)] rejects *)
| ImportError       (* [import(outfile)] rejects *)
| RegisterError     (* [registerRoutes] throws or rejects, or is no function *)
| StaticDirMissing  (* [serveStatic] finds no build directory *)
| BadPort           (* the RangeError of [app.listen] for a port it refuses *)
| ListenError       (* the ['error'] event of the server: the socket cannot be bound *)
| ViteError.        (* [setupVite] rejects *)

Inductive output : Type :=
| console_error (text : string)
| console_log (text : string).

(** [log(message)] of [vite.ts] with the default source. *)
Definition log (formattedTime message : string) : output :=
  console_log (formattedTime ++ " [express] " ++ message).

Inductive result (A : Type) : Type :=
| Returned (a : A)
| Thrown (e : exn).
Arguments Returned {A} a.
Arguments Thrown {A} e.

Section Process.
(** A layer of [backendRouter.stack]. *)
Variable route : Type.

Record World : Type := mkWorld {
  stack : list route;          (* [backendRouter.stack] *)
  console : list output;       (* oldest first *)
  builds : list string;        (* [outfile] of every [build] call, oldest first *)
  dist : list string;          (* the files of [dist/server] *)
  immediates : nat;            (* [cleanupOldBundles] callbacks queued *)
  listening : option number;   (* the port given to [app.listen] *)
  static_files : bool;         (* [serveStatic] installed *)
  vite : bool;                 (* [setupVite] done *)
  watching : bool              (* the chokidar handler is installed *)
}.

(** The process as it starts: an empty router, nothing built. *)
Definition boot : World := mkWorld [] [] [] [] 0 None false false false.

Definition set_stack (s : list route) (w : World) : World :=
  mkWorld s (console w) (builds w) (dist w) (immediates w)
          (listening w) (static_files w) (vite w) (watching w).
Definition add_console (o : output) (w : World) : World :=
  mkWorld (stack w) (console w ++ [o]) (builds w) (dist w) (immediates w)
          (listening w) (static_files w) (vite w) (watching w).
Definition add_build (f : string) (w : World) : World :=
  mkWorld (stack w) (console w) (builds w ++ [f]) (dist w) (immediates w)
          (listening w) (static_files w) (vite w) (watching w).
Definition write_dist (f : string) (w : World) : World :=
  mkWorld (stack w) (console w) (builds w)
          (if existsb (String.eqb f) (dist w) then dist w else dist w ++ [f])
          (immediates w)
          (listening w) (static_files w) (vite w) (watching w).
Definition add_immediate (w : World) : World :=
  mkWorld (stack w) (console w) (builds w) (dist w) (S (immediates w))
          (listening w) (static_files w) (vite w) (watching w).
Definition set_listening (p : number) (w : World) : World :=
  mkWorld (stack w) (console w) (builds w) (dist w) (immediates w)
          (Some p) (static_files w) (vite w) (watching w).
Definition set_static (w : World) : World :=
  mkWorld (stack w) (console w) (builds w) (dist w) (immediates w)
          (listening w) true (vite w) (watching w).
Definition set_vite (w : World) : World :=
  mkWorld (stack w) (console w) (builds w) (dist w) (immediates w)
          (listening w) (static_files w) true (watching w).
Definition set_watching (w : World) : World :=
  mkWorld (stack w) (console w) (builds w) (dist w) (immediates w)
          (listening w) (static_files w) (vite w) true.

(** Promises run to their settlement: a computation returns or throws,
    and leaves a world. *)
Definition M (A : Type) : Type := World -> result A * World.

Definition ret {A} (a : A) : M A := fun w => (Returned a, w).
Definition throw {A} (e : exn) : M A := fun w => (Thrown e, w).
Definition bind {A B} (c : M A) (k : A -> M B) : M B :=
  fun w =>
    match c w with
    | (Returned a, w') => k a w'
    | (Thrown e, w') => (Thrown e, w')
    end.
(** [c.catch(handler)] *)
Definition catch {A} (c : M A) (handler : exn -> M A) : M A :=
  fun w =>
    match c w with
    | (Returned a, w') => (Returned a, w')
    | (Thrown e, w') => handler e w'
    end.
Definition modify (f : World -> World) : M unit :=
  fun w => (Returned tt, f w).

Notation "x <- c1 ;; c2" := (bind c1 (fun x => c2))
  (at level 61, c1 at next level, right associativity).
Notation "c1 ;; c2" := (bind c1 (fun _ => c2))
  (at level 61, right associativity).

(** The export [registerRoutes], acting on [router.stack]: the stack
    it leaves, and the exception when it does not complete. *)
Definition registrar : Type := list route -> list route * option exn.

(** The module object that [import(outfile)] resolves to. *)
Record Module_ : Type := mkModule {
  registerRoutes : option registrar
}.

(** What the outside answers during one [loadBackend]: the clock, the
    bundler and the module loader. *)
Record Reply : Type := mkReply {
  now : N;                        (* [Date.now()] *)
  build_ok : bool;                (* [build(...)] resolves *)
  imported : option Module_       (* [import(outfile)]; [None]: rejects *)
}.

Definition build (outfile : string) (file : string) (ok : bool) : M unit :=
  modify (add_build outfile) ;;
  if ok then modify (write_dist file) else throw BuildError.

Definition import (m : option Module_) : M Module_ :=
  match m with
  | Some backend => ret backend
  | None => throw ImportError
  end.

Definition call (reg : registrar) : M unit :=
  fun w =>
    match reg (stack w) with
    | (s, None) => (Returned tt, set_stack s w)
    | (s, Some e) => (Thrown e, set_stack s w)
    end.

(** [loadBackend] (lines 109-137). *)
Definition loadBackend (cwd : string) (r : Reply) : M unit :=
  let timestamp := now r in
  build (outfile cwd timestamp) (bundle_name timestamp) (build_ok r) ;;
  backend <- import (imported r) ;;
  match registerRoutes backend with
  | Some reg =>
      modify (set_stack []) ;;
      call reg
  | None =>
      modify (add_console
                (console_error "Backend module has no registerRoutes export!"))
  end ;;
  modify add_immediate.

(** The filter of the watcher (line 189). *)
Definition actionable (path : string) : bool :=
  endsWith path ".ts" && negb (path =? "server/index.ts").

(** The chokidar ["all"] handler (lines 187-198), with the promise
    chain it starts run to its end. *)
Definition on_all (cwd : string) (event path : string) (r : Reply) : M unit :=
  if actionable path then
    catch
      (loadBackend cwd r ;;
       modify (add_console (console_log "ðŸ”„ Backend reloaded")))
      (fun _ => modify (add_console (console_error "Failed to build backend")))
  else ret tt.

(** The process environment that [main] reads, and what the outside
    answers during start-up. *)
Record Env : Type := mkEnv {
  cwd : string;                 (* [process.cwd()] *)
  PORT : option string;         (* [process.env.PORT] *)
  development : bool;           (* [app.get("env") === "development"] *)
  public_built : bool;          (* the client build directory exists *)
  bind_ok : bool;               (* the socket can be bound to the port *)
  vite_ok : bool;               (* [setupVite] resolves *)
  formattedTime : string        (* the clock when the listener reports *)
}.

Definition serveStatic (built : bool) : M unit :=
  if built then modify set_static else throw StaticDirMissing.

(** [app.listen(port, "0.0.0.0", callback)] as far as the call itself
    goes: the port is checked, and the listener is asked for. *)
Definition listen (port : Port.parsed) : M N :=
  match Port.validatePort port with
  | Some p => modify (set_listening (Num p)) ;; ret p
  | None => throw BadPort
  end.

(** What the server reports after [listen] has returned: the callback
    runs once the socket is bound; when it cannot be bound the server
    emits ['error'], for which the program has no listener. *)
Definition listening_event (env : Env) (p : N) : M unit :=
  if bind_ok env then
    modify (add_console
              (log (formattedTime env)
                   ("ðŸš€ Serving on http://localhost:" ++ to_string p)))
  else throw ListenError.

Definition setupVite (ok : bool) : M unit :=
  if ok then modify set_vite else throw ViteError.

(** The main initialization function (lines 165-200).  [Thrown e]:
    start-up ends with [e]; nothing handles it.  The server reports
    after the synchronous part of [main] has run: in production after
    [serveStatic], in development while [setupVite] is awaited. *)
Definition main (env : Env) (r0 : Reply) : M unit :=
  catch (loadBackend (cwd env) r0)
        (fun _ => modify (add_console (console_error "Failed to build backend"))) ;;
  let port := Port.parseInt (or_else (PORT env) "3000") in
  p <- listen port ;;
  if negb (development env) then
    serveStatic (public_built env) ;;
    listening_event env p
  else
    listening_event env p ;;
    setupVite (vite_ok env) ;;
    modify set_watching.

(** One queued [cleanupOldBundles] callback run to completion against
    the directory. *)
Definition run_immediate (cwd : string) (undeletable : string -> bool)
           (w : World) : World :=
  match immediates w with
  | O => w
  | S n =>
      let d := prune cwd (mkDisk true true (dist w) undeletable) in
      mkWorld (stack w) (console w) (builds w) (entries d) n
              (listening w) (static_files w) (vite w) (watching w)
  end.

End Process.

Arguments mkWorld {route}.
Arguments stack {route}.
Arguments console {route}.
Arguments builds {route}.
Arguments dist {route}.
Arguments immediates {route}.
Arguments listening {route}.
Arguments static_files {route}.
Arguments vite {route}.
Arguments watching {route}.
Arguments boot {route}.
Arguments set_stack {route}.
Arguments add_console {route}.
Arguments add_build {route}.
Arguments write_dist {route}.
Arguments add_immediate {route}.
Arguments set_listening {route}.
Arguments ret {route A}.
Arguments throw {route A}.
Arguments bind {route A B}.
Arguments catch {route A}.
Arguments modify {route}.
Arguments mkModule {route}.
Arguments registerRoutes {route}.
Arguments mkReply {route}.
Arguments now {route}.
Arguments build_ok {route}.
Arguments imported {route}.
Arguments build {route}.
Arguments import {route}.
Arguments call {route}.
Arguments loadBackend {route}.
Arguments on_all {route}.
Arguments serveStatic {route}.
Arguments listen {route}.
Arguments listening_event {route}.
Arguments setupVite {route}.
Arguments main {route}.
Arguments run_immediate {route}.

(** [server/backend.ts]: its [registerRoutes] mounts [/hello] and the
    catch-all; layers are named by their mount path. *)
Definition hello : Module_ string :=
  mkModule (Some (fun s => ((s ++ ["/hello"; "*"])%list, None))).

End Backend.

(** ** The development HTML fallback ([setupVite], [vite.ts] lines 62-85) *)
Module Vite.
Import JsString.

Definition dquote : string := String (ascii_of_nat 34) EmptyString.

(** [src="/main.tsx"] *)
Definition entry_ref : string := "src=" ++ dquote ++ "/main.tsx" ++ dquote.

(** The script reference with its query token: [/main.tsx?v=${id}] *)
Definition script_ref (id : string) : string := "/main.tsx?v=" ++ id.

(** [`src="/main.tsx?v=${nanoid()}"`] *)
Definition busted_ref (id : string) : string :=
  "src=" ++ dquote ++ script_ref id ++ dquote.

(** The alphabet of [nanoid()]: [A-Za-z0-9_-]. *)
Definition url_safe (c : ascii) : bool :=
  let n := nat_of_ascii c in
  (((48 <=? n) && (n <=? 57)) || ((65 <=? n) && (n <=? 90)) ||
   ((97 <=? n) && (n <=? 122)) || (n =? 95) || (n =? 45))%nat.

Fixpoint all_url_safe (s : string) : bool :=
  match s with
  | EmptyString => true
  | String c s' => url_safe c && all_url_safe s'
  end.

(** An identifier as [nanoid()] returns them: 21 symbols of its alphabet. *)
Definition is_nanoid (id : string) : bool :=
  (String.length id =? 21)%nat && all_url_safe id.

(** Lines 75-78: the template with the entry-script reference rewritten. *)
Definition rewrite (template id : string) : string :=
  replace template entry_ref (busted_ref id).

Inductive failure : Type :=
| ReadError        (* [readFile] rejects *)
| TransformError.  (* [transformIndexHtml] rejects *)

Inductive answer : Type :=
| Page (status : nat) (headers : list (string * string)) (body : string)
| Next (e : failure).

Section Fallback.
(** [vite.transformIndexHtml(url, html)]; [None] when it rejects. *)
Variable transformIndexHtml : string -> string -> option string.

(** The [app.use("*", ...)] handler for one request: [readFile] is the
    content of [client/index.html] read for this request ([None] when
    the read rejects), [id] the identifier [nanoid()] returns. *)
Definition fallback (readFile : option string) (id : string)
           (originalUrl : string) : answer :=
  match readFile with
  | None => Next ReadError
  | Some template =>
      let template := rewrite template id in
      match transformIndexHtml originalUrl template with
      | Some page => Page 200 [("Content-Type", "text/html")] page
      | None => Next TransformError
      end
  end.
End Fallback.

End Vite.

(** ** The logging middleware ([server/index.ts] lines 16-61)

    Log text is a list of UTF-16 code units, so that [length] and
    [slice] count what the JavaScript counts. *)
Module Logger.
Local Open Scope list_scope.

Definition ustring : Type := list N.

(** An ASCII literal as code units. *)
Definition lit (s : string) : ustring :=
  map N_of_ascii (list_ascii_of_string s).

(** The marker appended at lines 47 and 53, as the source file spells
    it: U+00E2 U+20AC U+00A6. *)
Definition ellipsis : ustring := [226; 8364; 166]%N.

(** [s.slice(0, n)] *)
Definition slice0 (n : nat) (s : ustring) : ustring := firstn n s.

Fixpoint startsWith (s pre : ustring) : bool :=
  match pre, s with
  | [], _ => true
  | a :: pre', b :: s' => N.eqb a b && startsWith s' pre'
  | _ :: _, [] => false
  end.

(** Lines 45-48. *)
Definition trimmedResponse (responseStr : ustring) : ustring :=
  if (100 <? List.length responseStr)%nat
  then slice0 100 responseStr ++ ellipsis
  else responseStr.

(** Lines 52-54. *)
Definition cap (logLine : ustring) : ustring :=
  if (200 <? List.length logLine)%nat
  then slice0 79 logLine ++ ellipsis
  else logLine.

(** What [JSON.stringify] does with a value. *)
Inductive stringified : Type :=
| Text (s : ustring)
| Undefined          (* a function, a symbol, [undefined] *)
| Throws.            (* a cycle, a BigInt *)

Inductive finish_outcome : Type :=
| Silent                    (* the path is not under [/api] *)
| Logged (line : ustring)   (* the argument of [console.log] *)
| ListenerThrows.

Section Middleware.
(** JavaScript values and what the middleware asks of them. *)
Variable value : Type.
Variable undefined : value.
Variable truthy : value -> bool.
Variable has_keys : value -> bool.        (* [Object.keys(v).length > 0] *)
Variable JSON_stringify : value -> stringified.

Record Request : Type := mkRequest {
  method : ustring;
  path : ustring;
  body : value;
  query : value
}.

(** [logLine += ` :: label: ${JSON.stringify(v)}`] when [v] is truthy
    and has keys; [None] when [JSON.stringify] throws. *)
Definition add_part (label : string) (v : value) (logLine : ustring)
  : option ustring :=
  if truthy v && has_keys v then
    match JSON_stringify v with
    | Text s => Some (logLine ++ lit label ++ s)
    | Undefined => Some (logLine ++ lit label ++ lit "undefined")
    | Throws => None
    end
  else Some logLine.

(** Lines 43-50; [captured] is [None] until [res.json] has run.
    Reading [length] of an undefined serialization throws. *)
Definition add_response (captured : option value) (logLine : ustring)
  : option ustring :=
  match captured with
  | Some v =>
      if truthy v then
        match JSON_stringify v with
        | Text responseStr =>
            Some (logLine ++ lit " :: response: " ++ trimmedResponse responseStr)
        | Undefined | Throws => None
        end
      else Some logLine
  | None => Some logLine
  end.

(** The line before the cap of lines 52-54. *)
Definition composed (req : Request) (statusCode : N) (duration : Z)
           (captured : option value) : option ustring :=
  let logLine :=
    method req ++ lit " " ++ path req ++ lit " " ++
    lit (JsNumber.to_string statusCode) ++ lit " in " ++
    lit (NilEmpty.string_of_int (Z.to_int duration)) ++ lit "ms" in
  match add_part " :: body: " (body req) logLine with
  | Some logLine =>
      match add_part " :: query: " (query req) logLine with
      | Some logLine => add_response captured logLine
      | None => None
      end
  | None => None
  end.

(** [log(message)] of [vite.ts]: the text given to [console.log]. *)
Definition log (formattedTime message : ustring) : ustring :=
  formattedTime ++ lit " [express] " ++ message.

(** The ["finish"] listener (lines 27-58). *)
Definition on_finish (req : Request) (statusCode : N) (start finish : Z)
           (formattedTime : ustring) (captured : option value)
  : finish_outcome :=
  let duration := (finish - start)%Z in
  if startsWith (path req) (lit "/api") then
    match composed req statusCode duration captured with
    | Some logLine => Logged (log formattedTime (cap logLine))
    | None => ListenerThrows
    end
  else Silent.

(** The response object as the handlers downstream act on it. *)
Variable response : Type.
Variable statusCode : response -> N.
(** What [res.json] returns (the response itself, for chaining). *)
Variable returned : Type.
(** The [res.json] found on the response when the middleware runs,
    applied with [this = res] to its argument list. *)
Variable originalResJson : list value -> response -> returned * response.

(** The replacement installed at lines 22-25, acting on the response
    and on the variable [capturedJsonResponse]. *)
Definition res_json (arguments : list value)
           (st : response * option value)
  : returned * (response * option value) :=
  let bodyJson := hd undefined arguments in
  let args := tl arguments in
  let (r, res) := originalResJson (bodyJson :: args) (fst st) in
  (r, (res, Some bodyJson)).

(** What runs after [next()]: calls of [res.json], whose result the
    caller may use, any other operation on the response, and the end
    of the response. *)
Inductive handler : Type :=
| Finish
| Json (arguments : list value) (k : returned -> handler)
| Other (f : response -> response) (k : handler).

(** Without the middleware. *)
Fixpoint serve (h : handler) (res : response) : response :=
  match h with
  | Finish => res
  | Json arguments k =>
      let (r, res') := originalResJson arguments res in serve (k r) res'
  | Other f k => serve k (f res)
  end.

(** With the replacement [res.json] in place. *)
Fixpoint serve_wrapped (h : handler) (st : response * option value)
  : response * option value :=
  match h with
  | Finish => st
  | Json arguments k =>
      let (r, st') := res_json arguments st in serve_wrapped (k r) st'
  | Other f k => serve_wrapped k (f (fst st), snd st)
  end.

(** The middleware around a handler: the response delivered and what
    the ["finish"] listener did. *)
Definition logged (req : Request) (start finish : Z)
           (formattedTime : ustring) (h : handler) (res : response)
  : response * finish_outcome :=
  let (res', captured) := serve_wrapped h (res, None) in
  (res', on_finish req (statusCode res') start finish formattedTime captured).

(** Every [res.json] call of the handler passes a body. *)
Fixpoint passes_body (h : handler) : Prop :=
  match h with
  | Finish => True
  | Json arguments k => arguments <> [] /\ forall r, passes_body (k r)
  | Other _ k => passes_body k
  end.

End Middleware.

Arguments mkRequest {value}.
Arguments method {value}.
Arguments path {value}.
Arguments body {value}.
Arguments query {value}.
Arguments add_part {value}.
Arguments add_response {value}.
Arguments composed {value}.
Arguments on_finish {value}.
Arguments res_json {value} undefined {response returned}.
Arguments Finish {value response returned}.
Arguments Json {value response returned}.
Arguments Other {value response returned}.
Arguments serve {value response returned}.
Arguments serve_wrapped {value} undefined {response returned}.
Arguments logged {value} undefined truthy has_keys JSON_stringify {response}
  statusCode {returned}.
Arguments passes_body {value response returned}.

End Logger.

(** ** More of JavaScript's strings: lines, search, case *)
Module JsText.
Import JsString.

(** The line feed of ["\n"]. *)
Definition LF : ascii := ascii_of_nat 10.

(** [s.split(sep)] for a one-character separator: the pieces between the
    separators; the empty string gives one empty piece. *)
Fixpoint split (sep : ascii) (s : string) : list string :=
  match s with
  | EmptyString => [EmptyString]
  | String c s' =>
      if Ascii.eqb c sep then EmptyString :: split sep s'
      else
        match split sep s' with
        | piece :: pieces => String c piece :: pieces
        | [] => [String c EmptyString]
        end
  end.

(** [pieces.join(sep)] for a one-character separator. *)
Definition join (sep : ascii) (pieces : list string) : string :=
  String.concat (String sep EmptyString) pieces.

(** [s.includes(pat)] *)
Definition includes (s pat : string) : bool :=
  match split_first pat s with
  | Some _ => true
  | None => false
  end.

(** [toLowerCase] on one code unit below 256: [A-Z] and the capital
    letters of Latin-1 (U+00C0-U+00DE but the multiplication sign) move
    32 up; everything else stays. *)
Definition lower (c : ascii) : ascii :=
  let n := nat_of_ascii c in
  if (((65 <=? n) && (n <=? 90)) ||
      ((192 <=? n) && (n <=? 222) && negb (n =? 215)))%nat
  then ascii_of_nat (n + 32)
  else c.

(** [s.toLowerCase()] *)
Fixpoint toLowerCase (s : string) : string :=
  match s with
  | EmptyString => EmptyString
  | String c s' => String (lower c) (toLowerCase s')
  end.

End JsText.

(** ** [logError] ([server/index.ts] lines 139-152) *)
Module ErrorLog.
Import JsString JsText.

(** An [Error] as [logError] reads it. *)
Record Error : Type := mkError {
  message : string;
  stack : option string
}.

(** What [console.error] is given. *)
Inductive printed : Type :=
| Object (err : Error)
| Message (text : string).

Definition noise (line : string) : bool :=
  includes line "node_modules" || includes line "internal".

(** Lines 145-149: the stack without the lines of dependencies and of
    Node itself. *)
Definition filtered (stack : string) : string :=
  join LF
    (filter (fun line => negb (includes line "internal"))
       (filter (fun line => negb (includes line "node_modules"))
          (split LF stack))).

Definition logError (err : Error) : printed :=
  match stack err with
  | None | Some EmptyString => Object err
  | Some stack =>
      Message ("Error: " ++ message err ++ String LF (filtered stack))
  end.

End ErrorLog.

(** ** The watcher over a run of change events *)
Module Watcher.
Import JsString Bundles Backend.

Section Events.
Variable route : Type.

(** One event given to the ["all"] handler, with what the outside
    answers to the rebuild it may start. *)
Record change : Type := mkChange {
  event : string;
  path : string;
  reply : Reply route
}.

(** The handler run on each event in turn, for a run in which every
    rebuild has come to its end before the next event is handled. *)
Definition dispatch (cwd : string) (events : list change)
           (w : World route) : World route :=
  fold_left
    (fun w e => snd (on_all cwd (event e) (path e) (reply e) w))
    events w.

(** The table that [loadBackend] leaves when it gets as far as line 130:
    the bundle built, the module loaded, [registerRoutes] exported. *)
Definition installs (r : Reply route) : option (list route) :=
  if build_ok r then
    match imported r with
    | Some backend =>
        match registerRoutes backend with
        | Some reg => Some (fst (reg []))
        | None => None
        end
    | None => None
    end
  else None.

(** *** Rebuilds that overlap

    The handler does not wait for the rebuild it starts (lines
    190-196): while one [loadBackend] waits for the bundler or for the
    module loader, further events are handled and other rebuilds go on.
    The event loop runs one callback at a time, so a rebuild advances
    by whole continuations: from one [await] to the next. *)

(** What a rebuild is waiting for. *)
Inductive stage : Type :=
| Building                      (* line 116: [build(...)] *)
| Importing                     (* line 127: [import(outfile)] *)
| Registering (x : option exn)  (* line 131: the promise of [registerRoutes],
                                   and what it rejects with *)
| Resolved                      (* [loadBackend] has resolved: [.then] is due *)
| Rejected (x : exn)            (* [loadBackend] has rejected: [.catch] is due *)
| Finished.

Record rebuild : Type := mkRebuild {
  answers : Reply route;
  stage_of : stage
}.

(** The process and the rebuilds started so far, oldest first. *)
Record Loop : Type := mkLoop {
  world : World route;
  rebuilds : list rebuild
}.

(** What the event loop runs next: the handler for a watcher event, or
    the continuation of the rebuild number [i]. *)
Inductive turn : Type :=
| Handle (e : change)
| Continue (i : nat).

(** The handler up to the first [await] of the [loadBackend] it calls
    (lines 189-190 and 111-116). *)
Definition handle (cwd : string) (e : change) (l : Loop) : Loop :=
  if actionable (path e) then
    mkLoop (add_build (outfile cwd (now (reply e))) (world l))
           (rebuilds l ++ [mkRebuild (reply e) Building])
  else l.

(** One continuation of a rebuild.  [registerRoutes] is taken to mount
    its routes in the call itself, as that of [server/backend.ts] does:
    the table it leaves is in place when line 131 starts to wait. *)
Definition continue (b : rebuild) (w : World route) : World route * stage :=
  let r := answers b in
  match stage_of b with
  | Building =>
      if build_ok r then (write_dist (bundle_name (now r)) w, Importing)
      else (w, Rejected BuildError)
  | Importing =>
      match imported r with
      | Some backend =>
          match registerRoutes backend with
          | Some reg =>
              let (s, x) := reg [] in (set_stack s w, Registering x)
          | None =>
              (add_immediate
                 (add_console
                    (console_error "Backend module has no registerRoutes export!")
                    w),
               Resolved)
          end
      | None => (w, Rejected ImportError)
      end
  | Registering None => (add_immediate w, Resolved)
  | Registering (Some x) => (w, Rejected x)
  | Resolved => (add_console (console_log "ðŸ”„ Backend reloaded") w, Finished)
  | Rejected _ =>
      (add_console (console_error "Failed to build backend") w, Finished)
  | Finished => (w, Finished)
  end.

(** [rebuilds[i] = b] *)
Fixpoint put (i : nat) (b : rebuild) (l : list rebuild) : list rebuild :=
  match l, i with
  | [], _ => []
  | _ :: rest, O => b :: rest
  | a :: rest, S i' => a :: put i' b rest
  end.

Definition step (cwd : string) (t : turn) (l : Loop) : Loop :=
  match t with
  | Handle e => handle cwd e l
  | Continue i =>
      match nth_error (rebuilds l) i with
      | Some b =>
          let (w, s) := continue b (world l) in
          mkLoop w (put i (mkRebuild (answers b) s) (rebuilds l))
      | None => l
      end
  end.

(** The turns taken in the order given; the queued prune passes, which
    act on the directory only, are not among them. *)
Definition run (cwd : string) (turns : list turn) (l : Loop) : Loop :=
  fold_left (fun l t => step cwd t l) turns l.

(** The turns of a run without overlap: after each event, the rebuild
    it started (the one numbered [n]) is continued to its end. *)
Fixpoint one_by_one (n : nat) (events : list change) : list turn :=
  match events with
  | [] => []
  | e :: rest =>
      Handle e :: repeat (Continue n) 4 ++
      one_by_one (if actionable (path e) then S n else n) rest
  end.

(** The table that a turn installs: the turn is the continuation of a
    rebuild whose import resolves with a [registerRoutes] export. *)
Definition mounts (t : turn) (l : Loop) : option (list route) :=
  match t with
  | Handle _ => None
  | Continue i =>
      match nth_error (rebuilds l) i with
      | Some b =>
          match stage_of b with
          | Importing => installs (answers b)
          | _ => None
          end
      | None => None
      end
  end.

(** What holds of the rebuilds in any run: a rebuild was started by an
    event that passed the filter, and waits for its import only after
    its build succeeded. *)
Definition started_by (turns : list turn) (b : rebuild) : Prop :=
  (exists e, In (Handle e) turns /\ actionable (path e) = true
             /\ reply e = answers b)
  /\ (stage_of b = Importing -> build_ok (answers b) = true).

End Events.

Arguments mkChange {route}.
Arguments event {route}.
Arguments path {route}.
Arguments reply {route}.
Arguments dispatch {route}.
Arguments installs {route}.
Arguments mkRebuild {route}.
Arguments answers {route}.
Arguments stage_of {route}.
Arguments mkLoop {route}.
Arguments world {route}.
Arguments rebuilds {route}.
Arguments Handle {route}.
Arguments Continue {route}.
Arguments handle {route}.
Arguments continue {route}.
Arguments put {route}.
Arguments step {route}.
Arguments run {route}.
Arguments one_by_one {route}.
Arguments mounts {route}.
Arguments started_by {route}.

End Watcher.

(** ** The development server session ([setupVite], [vite.ts] lines 15-61)

    Vite servers are named by the order in which they were created. *)
Module ViteSession.

Inductive layer : Type :=
| Middlewares (v : nat)   (* [app.use(vite.middlewares)] *)
| Fallback (v : nat).     (* [app.use("*", ...)] closing over [vite] *)

Record Session : Type := mkSession {
  currentViteServer : option nat;
  created : nat;               (* servers created so far *)
  closed : list nat;           (* servers whose [close()] resolved *)
  layers : list layer;         (* what [app.use] was given, oldest first *)
  console : list string
}.

(** The module as it is loaded: no server yet. *)
Definition fresh : Session := mkSession None 0 [] [] [].

(** What the outside answers during one [setupVite]. *)
Record Attempt : Type := mkAttempt {
  formattedTime : string;
  close_resolves : bool;      (* [currentViteServer.close()] resolves *)
  create_resolves : bool      (* [createViteServer(...)] resolves *)
}.

(** [log(message, source)] of lines 18-27. *)
Definition log (formattedTime message source : string) : string :=
  formattedTime ++ " [" ++ source ++ "] " ++ message.

(** Lines 43-61. *)
Definition create (a : Attempt) (s : Session) : bool * Session :=
  if create_resolves a then
    let vite := created s in
    (true,
     mkSession (Some vite) (S (created s)) (closed s)
               (layers s ++ [Middlewares vite; Fallback vite])
               (console s))
  else (false, s).

(** [setupVite(app, server)]; the boolean tells whether it resolved. *)
Definition setupVite (a : Attempt) (s : Session) : bool * Session :=
  match currentViteServer s with
  | Some v =>
      let s1 :=
        mkSession (currentViteServer s) (created s) (closed s) (layers s)
          (console s ++
             [log (formattedTime a) "Closing existing Vite server" "vite"]) in
      if close_resolves a then
        create a
          (mkSession None (created s1) (closed s1 ++ [v]) (layers s1)
                     (console s1))
      else (false, s1)
  | None => create a s
  end.

(** Calls of [setupVite] one after the other. *)
Definition setups (attempts : list Attempt) (s : Session) : Session :=
  fold_left (fun s a => snd (setupVite a s)) attempts s.

End ViteSession.

(** ** Retrying database operations ([server/lib/db.ts] lines 12-105) *)
Module Db.
Import JsString JsText.

Record DbError : Type := mkDbError {
  message : option string;
  code : option string
}.

Definition code_is (errorCode : option string) (c : string) : bool :=
  match errorCode with
  | Some x => (x =? c)%string
  | None => false
  end.

(** [isConnectionError] (lines 13-37); [None] is a falsy error. *)
Definition isConnectionError (error : option DbError) : bool :=
  match error with
  | None => false
  | Some error =>
      let errorMessage :=
        or_else (option_map toLowerCase (message error)) "" in
      let errorCode := code error in
      includes errorMessage "connection" ||
      includes errorMessage "network" ||
      includes errorMessage "timeout" ||
      includes errorMessage "econnrefused" ||
      includes errorMessage "enotfound" ||
      includes errorMessage "etimedout" ||
      includes errorMessage "can't reach database server" ||
      includes errorMessage "server has gone away" ||
      includes errorMessage "connection refused" ||
      includes errorMessage "connection lost" ||
      code_is errorCode "P1001" ||
      code_is errorCode "P1008" ||
      code_is errorCode "P1017" ||
      code_is errorCode "P1000" ||
      code_is errorCode "P1011"
  end.

(** What a call of the operation may reject with, as the code reads
    it: an [Error] object; any other truthy value, with the [message]
    and [code] it shows and the text that [String(...)] gives for it;
    or a falsy value ([undefined], [null], ...), with that text.  A
    [message], where there is one, is a string. *)
Inductive thrown : Type :=
| Err (error : DbError)
| Value (error : DbError) (text : string)
| Falsy (text : string).

(** The value of an uninitialised variable. *)
Definition undefined : thrown := Falsy "undefined".

(** The value as [isConnectionError] reads it. *)
Definition as_error (x : thrown) : option DbError :=
  match x with
  | Err error | Value error _ => Some error
  | Falsy _ => None
  end.

(** [error instanceof Error ? error.message : String(error)] *)
Definition errorMessage (x : thrown) : option string :=
  match x with
  | Err error => message error
  | Value _ text | Falsy text => Some text
  end.

(** [error?.code] *)
Definition errorCode (x : thrown) : option string :=
  match x with
  | Err error | Value error _ => code error
  | Falsy _ => None
  end.

Inductive output : Type :=
| console_warn (text : string) (error code : option string)
| console_error (text : string) (error : thrown).

(** What has happened so far in one [retryOperation]. *)
Record Trace : Type := mkTrace {
  calls : nat;            (* calls of [operation] *)
  sleeps : list N;        (* the delays waited for, in milliseconds *)
  console : list output
}.

(** The time waited in all. *)
Definition total (delays : list N) : N := fold_right N.add 0%N delays.

Definition nat_to_string (n : nat) : string := JsNumber.to_string (N.of_nat n).

Definition dquote : string := String (ascii_of_nat 34) EmptyString.

Section Retry.
Variable T : Type.

(** How a call of [operation] settles. *)
Inductive settled : Type :=
| Fulfilled (v : T)
| Failed (error : thrown).

(** How [retryOperation] settles. *)
Inductive result : Type :=
| Returned (v : T)
| Thrown (error : thrown).

(** The [for] loop of lines 48-84 with [fuel] rounds left, and the
    [throw lastError] of line 86 behind it.  [operation k] is how the
    call number [k] of the operation settles. *)
Fixpoint attempts (operation : nat -> settled) (maxRetries : nat)
         (baseDelay : N) (context : string)
         (fuel attempt : nat) (lastError : thrown) (t : Trace)
  : result * Trace :=
  match fuel with
  | O => (Thrown lastError, t)
  | S fuel' =>
      match operation attempt with
      | Fulfilled v => (Returned v, mkTrace (S (calls t)) (sleeps t) (console t))
      | Failed error =>
          if negb (isConnectionError (as_error error))
             || (attempt =? maxRetries)%nat
          then
            (Thrown error,
             mkTrace (S (calls t)) (sleeps t)
               (if (0 <? attempt)%nat then
                  console t ++
                  [console_error
                     ("Database operation " ++ dquote ++ context ++ dquote ++
                      " failed after " ++ nat_to_string (attempt + 1) ++
                      " attempts:") error]
                else console t))
          else
            let delay := (baseDelay * 2 ^ N.of_nat attempt)%N in
            attempts operation maxRetries baseDelay context fuel' (S attempt)
              error
              (mkTrace (S (calls t)) (sleeps t ++ [delay])
                 (console t ++
                  [console_warn
                     ("Database connection error on attempt " ++
                      nat_to_string (attempt + 1) ++ "/" ++
                      nat_to_string (maxRetries + 1) ++ " for " ++
                      dquote ++ context ++ dquote ++ ". Retrying in " ++
                      JsNumber.to_string delay ++ "ms...")
                     (errorMessage error) (errorCode error)]))
      end
  end.

(** [retryOperation(operation, maxRetries, baseDelay, context)]: the loop
    runs for [attempt = 0 .. maxRetries]. *)
Definition retryOperation (operation : nat -> settled) (maxRetries : nat)
           (baseDelay : N) (context : string) : result * Trace :=
  attempts operation maxRetries baseDelay context (S maxRetries) 0 undefined
    (mkTrace 0 [] []).

(** The middleware of lines 94-105 around [next(params)]. *)
Definition middleware (model action : option string)
           (next : nat -> settled) : result * Trace :=
  let operation :=
    match model with
    | Some m =>
        if (m =? "")%string then or_else action "unknown"
        else m ++ "." ++ match action with Some a => a | None => "undefined" end
    | None => or_else action "unknown"
    end in
  retryOperation next 3 1000 operation.

End Retry.

Arguments Fulfilled {T}.
Arguments Failed {T}.
Arguments Returned {T}.
Arguments Thrown {T}.
Arguments attempts {T}.
Arguments retryOperation {T}.
Arguments middleware {T}.

End Db.

(** ** The redirect callback ([server/routes/auth.ts] lines 107-117) *)
Module Auth.
Import JsString.

(** [redirect({ url, baseUrl })] with [process.env.NEXTAUTH_URL]. *)
Definition redirect (NEXTAUTH_URL : option string) (url baseUrl : string)
  : string :=
  let authUrl := or_else NEXTAUTH_URL baseUrl in
  if startsWith url "/" then authUrl ++ url
  else if startsWith url authUrl then url
  else authUrl.

End Auth.

(** ** What holds of the session between calls of [setupVite] *)
Module SessionShape.
Import ViteSession.

(** The layers that the servers [0 .. n-1] were mounted with. *)
Definition layers_of (n : nat) : list layer :=
  flat_map (fun v => [Middlewares v; Fallback v]) (seq 0 n).

(** The current server is the newest; the closed ones are all the others,
    each once; no layer was ever taken away. *)
Definition tidy (s : Session) : Prop :=
  (forall v, currentViteServer s = Some v -> S v = created s)
  /\ (forall v, In v (closed s) <->
                v < created s /\ currentViteServer s <> Some v)
  /\ NoDup (closed s)
  /\ layers s = layers_of (created s).

End SessionShape.

(** ** A [Set] of strings, in insertion order *)
Module JsSet.

(** [set.has(x)] *)
Definition has (set : list string) (x : string) : bool :=
  existsb (String.eqb x) set.

(** [set.add(x)] *)
Definition add (set : list string) (x : string) : list string :=
  if has set x then set else set ++ [x].

(** [set.delete(x)] *)
Definition delete (set : list string) (x : string) : list string :=
  filter (fun y => negb (String.eqb y x)) set.

(** [[...new Set(items)]] *)
Definition of_list (items : list string) : list string :=
  fold_left add items [].

End JsSet.

(** ** The route scan script ([getAllFiles] and the deduplication of
    [main]; a script of the repository whose file name is not given) *)
Module RouteScan.
Import JsString Bundles.

(** A directory tree as [readdirSync] and [statSync] show it. *)
#[warnings="-register-all"]
Inductive fsnode : Type :=
| File (name : string)
| Dir (name : string) (children : list fsnode).

Definition entry_name (n : fsnode) : string :=
  match n with
  | File name => name
  | Dir name _ => name
  end.

Section Scan.
(** [path.join(dir, entry)], which puts the two together and normalises
    the result. *)
Variable join : string -> string -> string.

(** One round of the loop of [getAllFiles(dir, ext, files)] for the
    entry [n] of [dir]; the array [files] is shared by all the calls. *)
Fixpoint visit (dir ext : string) (n : fsnode) (files : list string)
  : list string :=
  match n with
  | Dir name children =>
      let full := join dir name in
      fold_left (fun files c => visit full ext c files) children files
  | File name =>
      let full := join dir name in
      if endsWith full ext then files ++ [full] else files
  end.

(** [getAllFiles(dir, ext, files)] for a directory with the given
    entries. *)
Definition getAllFiles (dir ext : string) (entries : list fsnode)
           (files : list string) : list string :=
  fold_left (fun files c => visit dir ext c files) entries files.

End Scan.

(** [const uniqueRoutes = [...new Set(routes)]] *)
Definition uniqueRoutes (routes : list string) : list string :=
  JsSet.of_list routes.

End RouteScan.

(** ** The runtime error filter of the Vite configuration
    ([vite.config.ts] lines 6-31) *)
Module Overlay.
Import JsString JsText ErrorLog.

(** [getErrorKey]: the message and the first line of the stack. *)
Definition getErrorKey (error : Error) : string :=
  message error ++ ":" ++
  or_else (option_map (fun trace => hd EmptyString (split LF trace))
                      (stack error))
          "".

Record Cache : Type := mkCache {
  loggedErrors : list string;                 (* the [Set] *)
  console : list (string * option string);    (* [console.error(label, value)] *)
  timers : list string                        (* deletions waiting for their 5 s *)
}.

Definition empty : Cache := mkCache [] [] [].

(** The [filter] callback: what it returns and what it leaves. *)
Definition filter_error (error : Error) (c : Cache) : bool * Cache :=
  let errorKey := getErrorKey error in
  if JsSet.has (loggedErrors c) errorKey then (true, c)
  else
    (true,
     mkCache (JsSet.add (loggedErrors c) errorKey)
             (console c ++
                [("Vite Runtime Error:", Some (message error));
                 ("Stack:", stack error)])
             (timers c ++ [errorKey])).

(** The oldest timer fires. *)
Definition expire (c : Cache) : Cache :=
  match timers c with
  | [] => c
  | errorKey :: rest =>
      mkCache (JsSet.delete (loggedErrors c) errorKey) (console c) rest
  end.

(** Errors reported one after the other, no timer firing in between. *)
Definition reports (errors : list Error) (c : Cache) : Cache :=
  fold_left (fun c e => snd (filter_error e c)) errors c.

End Overlay.

(** ** The health check of the publish script
    ([vite.config.ts] lines 118-127 and 190-201) *)
Module Publish.

Definition ESC : string := String (ascii_of_nat 27) EmptyString.

(** [C.blue(s)] *)
Definition blue (s : string) : string := ESC ++ "[1;34m" ++ s ++ ESC ++ "[0m".

(** What [log(m)] gives to [console.log]. *)
Definition log (m : string) : string := blue "[ publish ]" ++ " " ++ m.

(** The loop of [healthcheck] from round [i] with [fuel] rounds left:
    the answer and the sleeps made.  [fetch_ok i] tells whether the
    [fetch] of round [i] resolves with [res.ok]. *)
Fixpoint rounds (fetch_ok : nat -> bool) (sleepMs : N) (fuel i : nat)
  : bool * list N :=
  match fuel with
  | O => (false, [])
  | S fuel' =>
      if fetch_ok i then (true, [])
      else
        let (ok, slept) := rounds fetch_ok sleepMs fuel' (S i) in
        (ok, sleepMs :: slept)
  end.

(** [healthcheck(url, attempts, sleepMs)]: the answer, the sleeps and
    the line logged. *)
Definition healthcheck (url : string) (fetch_ok : nat -> bool)
           (attempts : nat) (sleepMs : N) : bool * list N * list string :=
  (rounds fetch_ok sleepMs attempts 0, [log ("Healthchecking: " ++ url)]).

End Publish.

(** ** The error handler ([server/index.ts] lines 154-160) *)
Module ErrorHandler.
Import ErrorLog.

(** The response as the handler reads and writes it. *)
Record Res : Type := mkRes {
  headersSent : bool;
  statusCode : N;
  body : option string
}.

Definition dquote : string := String (ascii_of_nat 34) EmptyString.

(** The serialization of [{ message: "Internal Server Error" }]. *)
Definition internal_server_error : string :=
  "{" ++ dquote ++ "message" ++ dquote ++ ":" ++
  dquote ++ "Internal Server Error" ++ dquote ++ "}".

(** The handler for the error [err] of a request: what it gives to
    [console.error], and the response it leaves. *)
Definition handle (err : Error) (method path : string) (res : Res)
  : list printed * Res :=
  ([Message ("Error in " ++ method ++ " " ++ path ++ ":"); logError err],
   if headersSent res then res
   else mkRes true 500 (Some internal_server_error)).

End ErrorHandler.

(* ================================================================== *)
(** * Part II: what the code guarantees                                *)
(* ================================================================== *)

(** ** Strings *)
Module StringFacts.
Import JsString.

Lemma append_nil_r (s : string) : s ++ "" = s.
Proof. induction s as [|c s IH]; simpl; [reflexivity | now rewrite IH]. Qed.

Lemma append_assoc (a b c : string) : (a ++ b) ++ c = a ++ b ++ c.
Proof. induction a as [|x a IH]; simpl; [reflexivity | now rewrite IH]. Qed.

Lemma length_append (a b : string) :
  String.length (a ++ b) = String.length a + String.length b.
Proof. induction a as [|x a IH]; simpl; [reflexivity | now rewrite IH]. Qed.

Lemma append_inj_l (p a b : string) : p ++ a = p ++ b -> a = b.
Proof.
  induction p as [|x p IH]; simpl; intros H; [exact H |].
  injection H as H. auto.
Qed.

Lemma append_inj_r (s a b : string) : a ++ s = b ++ s -> a = b.
Proof.
  revert b. induction a as [|x a IH]; intros [|y b] H; simpl in H.
  - reflexivity.
  - apply (f_equal String.length) in H. simpl in H.
    rewrite length_append in H. lia.
  - apply (f_equal String.length) in H. simpl in H.
    rewrite length_append in H. lia.
  - injection H as -> H. f_equal. auto.
Qed.

Lemma strip_prefix_spec (pre s t : string) :
  strip_prefix pre s = Some t <-> s = pre ++ t.
Proof.
  revert s. induction pre as [|a pre IH]; intros s; simpl.
  - split; [intros [= ->] | intros ->]; reflexivity.
  - destruct s as [|b s]; [split; discriminate |].
    destruct (Ascii.eqb_spec a b) as [->|Hab].
    + rewrite IH. split; [intros -> | intros [= ->]]; reflexivity.
    + split; [discriminate | intros [= E _]; congruence].
Qed.

Lemma startsWith_spec (s pre : string) :
  startsWith s pre = true <-> exists t, s = pre ++ t.
Proof.
  unfold startsWith. revert s.
  induction pre as [|a pre IH]; intros s; simpl.
  - destruct s; split; eauto.
  - destruct s as [|b s]; simpl.
    + split; [discriminate | intros [t Ht]; discriminate].
    + destruct (ascii_dec a b) as [->|Hab].
      * rewrite IH. split; intros [t Ht]; exists t.
        -- now rewrite Ht.
        -- now injection Ht.
      * split; [discriminate | intros [t Ht]; injection Ht; congruence].
Qed.

Lemma endsWith_nil (suf : string) : endsWith "" suf = ("" =? suf).
Proof. unfold endsWith. apply orb_false_r. Qed.

Lemma endsWith_cons (c : ascii) (s suf : string) :
  endsWith (String c s) suf = (String c s =? suf) || endsWith s suf.
Proof. reflexivity. Qed.

Lemma endsWith_spec (s suf : string) :
  endsWith s suf = true <-> exists p, s = p ++ suf.
Proof.
  induction s as [|c s IH].
  - rewrite endsWith_nil, String.eqb_eq. split.
    + intros <-. now exists "".
    + intros [[|x p] Hp]; simpl in Hp; [auto | discriminate].
  - rewrite endsWith_cons, orb_true_iff, String.eqb_eq, IH. split.
    + intros [<- | [p ->]]; [now exists "" | now exists (String c p)].
    + intros [[|x p] Hp]; simpl in Hp; [auto |].
      injection Hp as -> ->. right. now exists p.
Qed.

Lemma split_first_sound (pat s pre post : string) :
  split_first pat s = Some (pre, post) -> s = pre ++ pat ++ post.
Proof.
  revert pre post. induction s as [|c s IH]; intros pre post;
    cbn [split_first].
  - destruct (strip_prefix pat "") as [t|] eqn:E; [|discriminate].
    apply strip_prefix_spec in E. intros [= <- <-]. exact E.
  - destruct (strip_prefix pat (String c s)) as [t|] eqn:E.
    + apply strip_prefix_spec in E. intros [= <- <-]. exact E.
    + destruct (split_first pat s) as [[pre' post']|]; [|discriminate].
      intros [= <- <-]. simpl. f_equal. now apply IH.
Qed.

Lemma split_first_complete (pat s : string) :
  (exists a b, s = a ++ pat ++ b) -> split_first pat s <> None.
Proof.
  induction s as [|c s IH]; intros (a & b & H); cbn [split_first].
  - destruct a; [|discriminate]. simpl in H.
    apply strip_prefix_spec in H. now rewrite H.
  - destruct (strip_prefix pat (String c s)) as [t|] eqn:E; [discriminate|].
    destruct a as [|x a]; simpl in H.
    + apply strip_prefix_spec in H. congruence.
    + injection H as -> ->.
      destruct (split_first pat (a ++ pat ++ b)) as [[? ?]|] eqn:F;
        [discriminate|].
      exfalso. apply IH; eauto.
Qed.

(** A replacement text without [$] is inserted as it is. *)
Lemma GetSubstitution_plain (matched before after repl : string) :
  lacks "$" repl = true ->
  GetSubstitution matched before after repl = repl.
Proof.
  induction repl as [|c r IH]; simpl; [reflexivity |].
  intros H. apply andb_true_iff in H as [Hc Hr].
  destruct (Ascii.eqb c "$"); [discriminate |].
  now rewrite IH.
Qed.

Lemma lacks_append (c : ascii) (a b : string) :
  lacks c (a ++ b) = lacks c a && lacks c b.
Proof.
  induction a as [|x a IH]; simpl; [reflexivity |].
  now rewrite IH, andb_assoc.
Qed.

End StringFacts.

(** ** Artifact names *)
Module NamingFacts.
Import JsString JsNumber Bundles StringFacts.

Lemma to_string_inj (a b : N) : to_string a = to_string b -> a = b.
Proof.
  unfold to_string. intros H.
  apply Unsigned.to_uint_inj.
  apply (f_equal NilEmpty.uint_of_string) in H.
  rewrite !NilEmpty.usu in H. now injection H.
Qed.

Lemma bundle_name_inj (a b : N) : bundle_name a = bundle_name b -> a = b.
Proof.
  unfold bundle_name. intros H.
  apply append_inj_l, append_inj_r in H. now apply to_string_inj.
Qed.

Lemma outfile_inj (cwd : string) (a b : N) :
  outfile cwd a = outfile cwd b -> a = b.
Proof.
  unfold outfile, path_join. intros H.
  apply append_inj_l, append_inj_l in H. now apply bundle_name_inj.
Qed.

Lemma decimal_value_to_string (n : N) : decimal_value (to_string n) = n.
Proof.
  unfold decimal_value, to_string.
  rewrite NilEmpty.usu. apply Unsigned.of_to.
Qed.

Lemma take_digits_uint (d : Decimal.uint) (rest : string) :
  take_digits (NilEmpty.string_of_uint d ++ String "." rest)
  = (NilEmpty.string_of_uint d, String "." rest).
Proof.
  induction d; cbn [NilEmpty.string_of_uint append take_digits];
    [reflexivity | ..];
    (change (is_digit _) with true; cbv iota; now rewrite IHd).
Qed.

Lemma to_string_nonempty (n : N) : to_string n <> "".
Proof.
  unfold to_string. destruct n as [|p]; [discriminate |].
  cbn [N.to_uint]. pose proof (DecimalPos.Unsigned.to_uint_nonnil p) as H.
  destruct (Pos.to_uint p); [congruence | discriminate ..].
Qed.

(** The regex reads back the digits that named the bundle. *)
Lemma regex_group_bundle_name (n : N) :
  regex_group (bundle_name n) = Some (to_string n).
Proof.
  unfold bundle_name.
  assert (E : regex_at ("backend.dist." ++ to_string n ++ ".cjs")
              = Some (to_string n)).
  { unfold regex_at.
    replace (strip_prefix "backend.dist." ("backend.dist." ++ to_string n ++ ".cjs"))
      with (Some (to_string n ++ ".cjs"))
      by (symmetry; now apply strip_prefix_spec).
    unfold to_string at 1. rewrite take_digits_uint. fold (to_string n).
    destruct (String.eqb_spec (to_string n) "") as [E|_];
      [now apply to_string_nonempty in E | reflexivity]. }
  destruct ("backend.dist." ++ to_string n ++ ".cjs") eqn:F;
    cbn [regex_group]; now rewrite E.
Qed.

(** The timestamp that pruning reads off a bundle is the clock reading
    in its name, as a Number. *)
Lemma timestamp_of_bundle_name (n : N) :
  timestamp_of (bundle_name n) = to_number n.
Proof.
  unfold timestamp_of. rewrite regex_group_bundle_name.
  unfold or_else. pose proof (to_string_nonempty n) as H.
  destruct (to_string n) eqn:E; [congruence |].
  rewrite <- E. unfold parseInt. now rewrite decimal_value_to_string.
Qed.

Lemma to_number_exact (n : N) : (n < 2 ^ 53)%N -> to_number n = Num n.
Proof.
  intros H. unfold to_number.
  destruct (N.ltb_spec n (2 ^ 53)) as [_|H']; [reflexivity | lia].
Qed.

End NamingFacts.

(** ** The descending stable sort *)
Module SortFacts.
Import JsNumber Bundles.

Lemma le_refl (a : number) : le a a.
Proof.
  unfold le. destruct a as [n|]; simpl; [|discriminate].
  rewrite N.compare_refl. discriminate.
Qed.

Lemma le_trans (a b c : number) : le a b -> le b c -> le a c.
Proof.
  unfold le. destruct a as [x|], b as [y|], c as [z|]; simpl;
    try congruence.
  rewrite !N.compare_gt_iff. lia.
Qed.

Lemma sub_sign_Gt_le (a b : number) : sub_sign a b = Gt -> le b a.
Proof.
  unfold le. destruct a as [x|], b as [y|]; simpl; try congruence.
  rewrite !N.compare_gt_iff. lia.
Qed.

Lemma le_zero (a : number) : le a (Num 0) -> a = Num 0.
Proof.
  unfold le. destruct a as [x|]; simpl; [|congruence].
  rewrite N.compare_gt_iff. intros H. f_equal. lia.
Qed.

Lemma insert_perm (x : entry) (l : list entry) :
  Permutation (insert x l) (x :: l).
Proof.
  induction l as [|y l IH]; simpl; [reflexivity |].
  destruct (comparefn x y); try reflexivity.
  rewrite IH. apply perm_swap.
Qed.

Lemma sort_perm (l : list entry) : Permutation (sort l) l.
Proof.
  induction l as [|x l IH]; simpl; [reflexivity |].
  rewrite insert_perm. now constructor.
Qed.

Lemma insert_sorted (x : entry) (l : list entry) :
  StronglySorted before l -> StronglySorted before (insert x l).
Proof.
  induction 1 as [|y l Hl IH Hy]; simpl.
  - repeat constructor.
  - destruct (comparefn x y) eqn:E.
    + constructor; [now constructor |].
      assert (Hxy : before x y) by (unfold before, le; fold (comparefn x y); congruence).
      constructor; [exact Hxy |].
      eapply Forall_impl; [|exact Hy]. intros z Hz.
      unfold before in *. eapply le_trans; eassumption.
    + constructor; [now constructor |].
      assert (Hxy : before x y) by (unfold before, le; fold (comparefn x y); congruence).
      constructor; [exact Hxy |].
      eapply Forall_impl; [|exact Hy]. intros z Hz.
      unfold before in *. eapply le_trans; eassumption.
    + constructor; [exact IH |].
      rewrite (Forall_forall (before y)). intros z Hz.
      apply (Permutation_in _ (insert_perm x l)) in Hz.
      destruct Hz as [<- | Hz].
      * now apply sub_sign_Gt_le.
      * rewrite Forall_forall in Hy. auto.
Qed.

Lemma sort_sorted (l : list entry) : StronglySorted before (sort l).
Proof.
  induction l as [|x l IH]; simpl; [constructor | now apply insert_sorted].
Qed.

Lemma eqb_eq (a b : number) : JsNumber.eqb a b = true <-> a = b.
Proof.
  destruct a as [x|], b as [y|]; simpl; try (split; congruence).
  rewrite N.eqb_eq. split; congruence.
Qed.

Lemma sub_sign_same (a : number) : sub_sign a a = Eq.
Proof. destruct a as [x|]; simpl; [apply N.compare_refl | reflexivity]. Qed.

(** Stability: the entries of any one timestamp keep the order they had. *)
Lemma insert_stable (t : number) (x : entry) (l : list entry) :
  filter (fun e => JsNumber.eqb (timestamp e) t) (insert x l)
  = filter (fun e => JsNumber.eqb (timestamp e) t) (x :: l).
Proof.
  induction l as [|y l IH]; [reflexivity |].
  cbn [insert]. destruct (comparefn x y) eqn:E; try reflexivity.
  cbn [filter] in *. rewrite IH.
  destruct (JsNumber.eqb (timestamp x) t) eqn:Ex;
    destruct (JsNumber.eqb (timestamp y) t) eqn:Ey; try reflexivity.
  apply eqb_eq in Ex, Ey. unfold comparefn in E.
  rewrite Ex, Ey, sub_sign_same in E. discriminate.
Qed.

Lemma sort_stable (t : number) (l : list entry) :
  filter (fun e => JsNumber.eqb (timestamp e) t) (sort l)
  = filter (fun e => JsNumber.eqb (timestamp e) t) l.
Proof.
  induction l as [|x l IH]; [reflexivity |].
  cbn [sort fold_right]. fold (sort l). rewrite insert_stable.
  cbn [filter]. now rewrite IH.
Qed.

(** In a sorted list everything from position [n] on is at most
    everything before position [n]. *)
Lemma sorted_firstn_skipn (n : nat) (l : list entry) :
  StronglySorted before l ->
  forall k x, In k (firstn n l) -> In x (skipn n l) -> before k x.
Proof.
  intros H. revert n. induction H as [|y l Hl IH Hy]; intros n k x Hk Hx.
  - rewrite firstn_nil in Hk. destruct Hk.
  - destruct n as [|n]; simpl in Hk, Hx; [destruct Hk |].
    destruct Hk as [<- | Hk].
    + rewrite Forall_forall in Hy. apply Hy.
      rewrite <- (firstn_skipn n l). apply in_or_app. now right.
    + eapply IH; eassumption.
Qed.

End SortFacts.

(** ** Pruning *)
Module PruneFacts.
Import JsString JsNumber Bundles StringFacts SortFacts.

Lemma names_of_entries (dir : string) (l : list string) :
  map name (map (mk_entry dir) l) = l.
Proof. induction l as [|f l IH]; simpl; [reflexivity | now rewrite IH]. Qed.

Lemma length_sort (l : list entry) : List.length (sort l) = List.length l.
Proof. apply Permutation_length, sort_perm. Qed.

(** The guard of line 84 changes nothing: with at most 2 bundles there
    is nothing after the first 2. *)
Lemma filesToDelete_skipn (dir : string) (files : list string) :
  filesToDelete dir files
  = skipn 2 (sort (map (mk_entry dir) (bundleFiles files))).
Proof.
  unfold filesToDelete.
  destruct (Nat.ltb_spec 2 (List.length (bundleFiles files))) as [H|H];
    [reflexivity |].
  symmetry. apply skipn_all2. now rewrite length_sort, length_map.
Qed.

Lemma keep_delete_perm (dir : string) (files : list string) :
  Permutation
    (map name (filesToKeep dir files) ++ map name (filesToDelete dir files))
    (bundleFiles files).
Proof.
  rewrite filesToDelete_skipn. unfold filesToKeep.
  rewrite <- map_app, firstn_skipn.
  rewrite (Permutation_map name (sort_perm _)).
  now rewrite names_of_entries.
Qed.

Lemma deleted_is_bundle (dir : string) (files : list string) (x : entry) :
  In x (filesToDelete dir files) -> is_bundle (name x) = true.
Proof.
  intros H. apply (in_map name) in H.
  assert (In (name x) (bundleFiles files)) as H'.
  { apply (Permutation_in _ (keep_delete_perm dir files)).
    apply in_or_app. now right. }
  unfold bundleFiles in H'. now apply filter_In in H'.
Qed.

Lemma undeletable_unlink (d : Disk) (e : entry) :
  undeletable (unlink d e) = undeletable d.
Proof.
  unfold unlink, fs_unlink. now destruct (undeletable d (name e)).
Qed.

Lemma In_unlink (d : Disk) (e : entry) (f : string) :
  In f (entries (unlink d e)) <->
  In f (entries d) /\ (undeletable d f = true \/ f <> name e).
Proof.
  unfold unlink, fs_unlink.
  destruct (undeletable d (name e)) eqn:U; simpl.
  - split; [intros H | tauto]. split; [exact H |].
    destruct (string_dec f (name e)) as [->|N]; auto.
  - rewrite filter_In, negb_true_iff, String.eqb_neq. split.
    + intros [H N]. auto.
    + intros [H [V|N]]; split; auto. congruence.
Qed.

(** What is left once the issued unlinks have settled: every file but
    those whose unlink was issued and succeeded. *)
Lemma In_settle (pending : list entry) (d : Disk) (f : string) :
  In f (entries (settle d pending)) <->
  In f (entries d) /\ (undeletable d f = true \/ ~ In f (map name pending)).
Proof.
  revert d. induction pending as [|e l IH]; intros d; simpl.
  - tauto.
  - fold (settle (unlink d e) l). rewrite IH, In_unlink, undeletable_unlink.
    split.
    + intros [[H [U|N]] [V|M]]; split; auto. right. intros [E|E]; auto.
    + intros [H [U|N]]; auto. split; [split |]; auto.
Qed.

Lemma NoDup_unlink (d : Disk) (e : entry) :
  NoDup (entries d) -> NoDup (entries (unlink d e)).
Proof.
  unfold unlink, fs_unlink. destruct (undeletable d (name e)); simpl; auto.
  apply NoDup_filter.
Qed.

Lemma NoDup_settle (pending : list entry) (d : Disk) :
  NoDup (entries d) -> NoDup (entries (settle d pending)).
Proof.
  revert d. induction pending as [|e l IH]; intros d H; simpl; auto.
  apply IH. now apply NoDup_unlink.
Qed.

Lemma cleanup_listed (cwd : string) (d : Disk) :
  accessible d = true -> readable d = true ->
  cleanupOldBundles cwd d = filesToDelete (distDir cwd) (entries d).
Proof.
  unfold cleanupOldBundles, fs_access, fs_readdir. now intros -> ->.
Qed.

(** Without a listing nothing is deleted. *)
Lemma cleanup_unlisted (cwd : string) (d : Disk) :
  accessible d = false \/ readable d = false -> prune cwd d = d.
Proof.
  unfold prune, cleanupOldBundles, fs_access, fs_readdir.
  intros [-> | ->]; [reflexivity |]. now destruct (accessible d).
Qed.

Lemma timestamp_unmatched (f : string) :
  regex_group f = None -> timestamp_of f = Num 0.
Proof. unfold timestamp_of. intros ->. reflexivity. Qed.

(** In a sorted list, an entry of timestamp 0 stands behind the first
    two places as soon as two different entries have another timestamp. *)
Lemma zero_behind_two (l : list entry) (x a b : entry) :
  StronglySorted before l ->
  In x l -> In a l -> In b l -> a <> b ->
  timestamp x = Num 0 -> timestamp a <> Num 0 -> timestamp b <> Num 0 ->
  In x (skipn 2 l).
Proof.
  intros Hs Hx Ha Hb Hab Zx Za Zb.
  assert (low : forall y l', Forall (before y) l' -> timestamp y = Num 0 ->
                 forall z, In z l' -> timestamp z = Num 0).
  { intros y l' F Zy z Hz. rewrite Forall_forall in F.
    apply F in Hz. unfold before in Hz. rewrite Zy in Hz.
    now apply le_zero. }
  destruct l as [|s0 [|s1 rest]]; simpl in *.
  - destruct Hx.
  - destruct Ha as [<-|[]], Hb as [<-|[]]. congruence.
  - inversion Hs as [|? ? Hs1 F0]; subst.
    inversion Hs1 as [|? ? Hs2 F1]; subst.
    destruct Hx as [<- | [<- | Hx]]; [| | exact Hx]; exfalso.
    + destruct Ha as [<- | Ha]; [congruence |].
      apply Za. eapply (low s0); eauto.
    + assert (A : a = s0).
      { destruct Ha as [<- | [<- | Ha]]; [reflexivity | congruence |].
        exfalso. apply Za. eapply (low s1); eauto. }
      assert (B : b = s0).
      { destruct Hb as [<- | [<- | Hb]]; [reflexivity | congruence |].
        exfalso. apply Zb. eapply (low s1); eauto. }
      congruence.
Qed.

Lemma NoDup_app_apart (A : Type) (l r : list A) (x : A) :
  NoDup (l ++ r) -> In x l -> ~ In x r.
Proof.
  induction l as [|y l IH]; simpl; intros ND Hx; [destruct Hx |].
  inversion ND as [|? ? Hy ND']; subst.
  destruct Hx as [-> | Hx]; [| now apply IH].
  intros Hr. apply Hy. apply in_or_app. now right.
Qed.

Lemma In_prune (cwd : string) (d : Disk) (f : string) :
  accessible d = true -> readable d = true ->
  In f (entries (prune cwd d)) <->
  In f (entries d) /\
  (undeletable d f = true \/
   ~ In f (map name (filesToDelete (distDir cwd) (entries d)))).
Proof.
  intros Ha Hr. unfold prune.
  rewrite In_settle, cleanup_listed by assumption. reflexivity.
Qed.

(** When every unlink succeeds, the bundles left are the kept ones. *)
Lemma left_is_kept (cwd : string) (d : Disk) :
  accessible d = true -> readable d = true ->
  (forall f, undeletable d f = false) -> NoDup (entries d) ->
  Permutation (bundleFiles (entries (prune cwd d)))
              (map name (filesToKeep (distDir cwd) (entries d))).
Proof.
  intros Ha Hr Hdel Hnd.
  pose proof (keep_delete_perm (distDir cwd) (entries d)) as P.
  assert (NDkd : NoDup (map name (filesToKeep (distDir cwd) (entries d)) ++
                        map name (filesToDelete (distDir cwd) (entries d)))).
  { eapply Permutation_NoDup; [symmetry; exact P |].
    apply NoDup_filter. exact Hnd. }
  apply NoDup_Permutation.
  - apply NoDup_filter. unfold prune. now apply NoDup_settle.
  - eapply NoDup_app_remove_r. exact NDkd.
  - intros f. unfold bundleFiles at 1. rewrite filter_In, In_prune by assumption.
    split.
    + intros [[He [U|N]] Hb]; [now rewrite Hdel in U |].
      assert (Hf : In f (bundleFiles (entries d)))
        by (apply filter_In; auto).
      apply (Permutation_in _ (Permutation_sym P)) in Hf.
      apply in_app_or in Hf. tauto.
    + intros Hf.
      assert (Hb : In f (bundleFiles (entries d))).
      { apply (Permutation_in _ P). apply in_or_app. now left. }
      apply filter_In in Hb. destruct Hb as [He Hb].
      repeat split; auto. right.
      eapply NoDup_app_apart; eassumption.
Qed.

End PruneFacts.

(** ** Retention of bundle artifacts *)
Module Retention.
Import JsString JsNumber Bundles StringFacts SortFacts PruneFacts.

(** C3, as the code has it.  After a prune pass that could list the
    directory, and once its unlinks have settled:
    - a file is still there exactly when it was there before and either
      its unlink failed or no unlink was issued for it; a failed unlink
      changes nothing else;
    - unlinks are issued for bundle files only, and every bundle for
      which one is issued has a timestamp at most that of each of the
      (at most 2) bundles that are kept: the kept ones are the first 2
      of the stable descending sort;
    - when no unlink fails, the bundle files left are exactly the kept
      ones, so at most 2. *)
Theorem prune_retains_newest_two (cwd : string) (d : Disk) :
  accessible d = true -> readable d = true ->
  let dir := distDir cwd in
  let keep := filesToKeep dir (entries d) in
  let delete := filesToDelete dir (entries d) in
  let left := bundleFiles (entries (prune cwd d)) in
  (forall f, In f (entries (prune cwd d)) <->
             In f (entries d) /\
             (undeletable d f = true \/ ~ In f (map name delete)))
  /\ (forall x, In x delete -> is_bundle (name x) = true)
  /\ (forall k x, In k keep -> In x delete ->
                  le (timestamp x) (timestamp k))
  /\ (List.length keep <= 2)%nat
  /\ ((forall f, undeletable d f = false) -> NoDup (entries d) ->
      Permutation left (map name keep) /\ (List.length left <= 2)%nat).
Proof.
  intros Ha Hr dir keep delete left.
  assert (Hk : (List.length keep <= 2)%nat)
    by (unfold keep, filesToKeep; apply firstn_le_length).
  split; [| split; [| split; [| split]]].
  - intros f. now apply In_prune.
  - apply deleted_is_bundle.
  - intros k x Hkx Hx. unfold delete in Hx. rewrite filesToDelete_skipn in Hx.
    exact (sorted_firstn_skipn 2 _ (sort_sorted _) k x Hkx Hx).
  - exact Hk.
  - intros Hdel Hnd.
    assert (Hp : Permutation left (map name keep))
      by now apply left_is_kept.
    split; [exact Hp |].
    rewrite (Permutation_length Hp), length_map. exact Hk.
Qed.

Lemma prune_retains_newest_two_witness :
  let d := mkDisk true true
             ["backend.dist.1700000000001.cjs"; "notes.txt";
              "backend.dist.1700000000003.cjs";
              "backend.dist.1700000000002.cjs"]
             (fun _ => false) in
  bundleFiles (entries (prune "/app" d))
  = ["backend.dist.1700000000003.cjs"; "backend.dist.1700000000002.cjs"]
  /\ (List.length (bundleFiles (entries (prune "/app" d))) <= 2)%nat.
Proof.
  intros d. split; [reflexivity |].
  destruct (prune_retains_newest_two "/app" d eq_refl eq_refl)
    as (_ & _ & _ & _ & H).
  apply H.
  - intros f. reflexivity.
  - repeat constructor; simpl; intuition discriminate.
Defined.

(** C3 as stated fails: three bundles, the unlink of the oldest is
    rejected (and the rejection dropped); the pass completes and three
    bundle files are still in the directory. *)
Lemma failed_unlink_leaves_three :
  let d := mkDisk true true
             ["backend.dist.1.cjs"; "backend.dist.2.cjs"; "backend.dist.3.cjs"]
             (fun f => f =? "backend.dist.1.cjs") in
  map name (cleanupOldBundles "/app" d) = ["backend.dist.1.cjs"]
  /\ bundleFiles (entries (prune "/app" d))
     = ["backend.dist.1.cjs"; "backend.dist.2.cjs"; "backend.dist.3.cjs"]
  /\ ~ (List.length (bundleFiles (entries (prune "/app" d))) <= 2)%nat.
Proof.
  intros d. split; [reflexivity | split; [reflexivity |]].
  change (~ (3 <= 2)%nat). lia.
Qed.

(** C10, as the code has it.  A bundle file on which the regex finds no
    digits gets timestamp 0.  When two other bundle files have a
    timestamp that is not 0, an unlink is issued for it, and it is gone
    after the pass unless that unlink fails. *)
Theorem unmatched_bundle_is_pruned (cwd : string) (d : Disk) (f a b : string) :
  accessible d = true -> readable d = true ->
  In f (bundleFiles (entries d)) -> regex_group f = None ->
  In a (bundleFiles (entries d)) -> In b (bundleFiles (entries d)) ->
  a <> b ->
  timestamp_of a <> Num 0 -> timestamp_of b <> Num 0 ->
  timestamp_of f = Num 0
  /\ In f (map name (cleanupOldBundles cwd d))
  /\ (undeletable d f = false -> ~ In f (entries (prune cwd d))).
Proof.
  intros Ha Hr Hf Hnone Hia Hib Hab Za Zb.
  pose proof (timestamp_unmatched f Hnone) as Zf.
  assert (Hdel : In f (map name (cleanupOldBundles cwd d))).
  { rewrite cleanup_listed, filesToDelete_skipn by assumption.
    set (dir := distDir cwd).
    change f with (name (mk_entry dir f)). apply in_map.
    assert (S : forall g, In g (bundleFiles (entries d)) ->
                  In (mk_entry dir g)
                     (sort (map (mk_entry dir) (bundleFiles (entries d))))).
    { intros g Hg. apply (Permutation_in _ (Permutation_sym (sort_perm _))).
      now apply in_map. }
    apply (zero_behind_two _ (mk_entry dir f) (mk_entry dir a) (mk_entry dir b));
      auto using sort_sorted.
    intros E. apply Hab. exact (f_equal name E). }
  split; [exact Zf | split; [exact Hdel |]].
  intros U Hin. apply In_prune in Hin; [| assumption ..].
  destruct Hin as [_ [V | N]]; [congruence |].
  apply N. now rewrite <- cleanup_listed.
Qed.

Lemma unmatched_bundle_is_pruned_witness :
  let d := mkDisk true true
             ["backend.dist.tmp.cjs"; "backend.dist.1700000000001.cjs";
              "backend.dist.1700000000002.cjs"]
             (fun _ => false) in
  timestamp_of "backend.dist.tmp.cjs" = Num 0
  /\ In "backend.dist.tmp.cjs" (map name (cleanupOldBundles "/app" d))
  /\ (undeletable d "backend.dist.tmp.cjs" = false ->
      ~ In "backend.dist.tmp.cjs" (entries (prune "/app" d))).
Proof.
  intros d.
  apply (unmatched_bundle_is_pruned "/app" d "backend.dist.tmp.cjs"
           "backend.dist.1700000000001.cjs" "backend.dist.1700000000002.cjs");
    try reflexivity.
  - simpl. auto.
  - simpl. auto.
  - simpl. auto.
  - discriminate.
  - vm_compute. discriminate.
  - vm_compute. discriminate.
Defined.

(** C10 as stated fails: three files match the prefix and the suffix,
    two of them without a parsable timestamp; all unlinks succeed, and
    one of the two is kept. *)
Lemma unmatched_bundle_is_retained :
  let files := ["backend.dist.5.cjs"; "backend.dist.x.cjs"; "backend.dist.y.cjs"] in
  let d := mkDisk true true files (fun _ => false) in
  bundleFiles files = files
  /\ (2 < List.length (bundleFiles files))%nat
  /\ regex_group "backend.dist.x.cjs" = None
  /\ timestamp_of "backend.dist.x.cjs" = Num 0
  /\ map name (cleanupOldBundles "/app" d) = ["backend.dist.y.cjs"]
  /\ In "backend.dist.x.cjs" (bundleFiles (entries (prune "/app" d))).
Proof.
  intros files d. repeat split; try reflexivity.
  - simpl. lia.
  - simpl. auto.
Qed.

End Retention.

(** ** The port setting *)
Module PortFacts.
Import JsString JsNumber NamingFacts.

Lemma take_digits_numeral (d : Decimal.uint) :
  take_digits (NilEmpty.string_of_uint d) = (NilEmpty.string_of_uint d, "").
Proof.
  induction d; cbn [NilEmpty.string_of_uint take_digits];
    [reflexivity | ..];
    (change (is_digit _) with true; cbv iota; now rewrite IHd).
Qed.

Lemma numeral_unsigned (d : Decimal.uint) :
  Port.sign_of (Port.trim_start (NilEmpty.string_of_uint d))
  = (false, NilEmpty.string_of_uint d).
Proof. destruct d; reflexivity. Qed.

(** A decimal numeral is read as the number it writes. *)
Lemma parseInt_to_string (n : N) :
  Port.parseInt (to_string n) = Port.Int false (to_number n).
Proof.
  unfold Port.parseInt. unfold to_string at 1.
  rewrite numeral_unsigned, take_digits_numeral. fold (to_string n).
  destruct (String.eqb_spec (to_string n) "") as [E|_];
    [now apply to_string_nonempty in E |].
  now rewrite decimal_value_to_string.
Qed.

(** The ports that [app.listen] accepts, written as numerals. *)
Lemma validatePort_numeral (n : N) :
  (n <= 65535)%N -> Port.validatePort (Port.parseInt (to_string n)) = Some n.
Proof.
  intros H. rewrite parseInt_to_string, to_number_exact.
  - unfold Port.validatePort.
    destruct (N.leb_spec n 65535) as [_|H']; [reflexivity | lia].
  - apply N.le_lt_trans with (1 := H). reflexivity.
Qed.

(** What [parseInt(s, 10)] makes of some settings, and what
    [app.listen] makes of the result. *)
Lemma parseInt_examples :
  Port.parseInt "3000" = Port.Int false (Num 3000)
  /\ Port.parseInt "8080x" = Port.Int false (Num 8080)
  /\ Port.parseInt "  +80" = Port.Int false (Num 80)
  /\ Port.parseInt "0x1F" = Port.Int false (Num 0)
  /\ Port.parseInt "-1" = Port.Int true (Num 1)
  /\ Port.parseInt "abc" = Port.NaN
  /\ Port.parseInt "+" = Port.NaN
  /\ Port.validatePort (Port.parseInt "8080x") = Some 8080%N
  /\ Port.validatePort (Port.parseInt "-0") = Some 0%N
  /\ Port.validatePort (Port.parseInt "65536") = None
  /\ Port.validatePort (Port.parseInt "-1") = None
  /\ Port.validatePort (Port.parseInt "abc") = None.
Proof. repeat split; reflexivity. Qed.

End PortFacts.

(** ** Loading, reloading and start-up *)
Module Reload.
Import JsString JsNumber Bundles Backend StringFacts NamingFacts.

(** Runs the steps of a computation as far as they are known. *)
Ltac run_steps :=
  unfold loadBackend, build, import, call, serveStatic,
    bind, catch, modify, throw, ret;
  simpl.

Section Facts.
Variable route : Type.
Implicit Types (w : World route) (r : Reply route).

(** Every [loadBackend] asks the bundler for one build, whatever
    becomes of it. *)
Lemma builds_loadBackend (cwd : string) r w :
  builds (snd (loadBackend cwd r w)) = (builds w ++ [outfile cwd (now r)])%list.
Proof.
  run_steps. destruct (build_ok r); simpl; [|reflexivity].
  destruct (imported r) as [backend|]; simpl; [|reflexivity].
  destruct (registerRoutes backend) as [reg|]; simpl; [|reflexivity].
  destruct (reg []) as [s [e|]]; reflexivity.
Qed.

Lemma loadBackend_build_fails (cwd : string) r w :
  build_ok r = false ->
  loadBackend cwd r w = (Thrown BuildError, add_build (outfile cwd (now r)) w).
Proof.
  intros H. run_steps. now rewrite H.
Qed.

Lemma actionable_spec (path : string) :
  actionable path = true <->
  (exists p, path = p ++ ".ts") /\ path <> "server/index.ts".
Proof.
  unfold actionable.
  rewrite andb_true_iff, negb_true_iff, endsWith_spec, String.eqb_neq.
  reflexivity.
Qed.

Lemma builds_on_all (cwd event path : string) r w :
  actionable path = true ->
  builds (snd (on_all cwd event path r w)) = (builds w ++ [outfile cwd (now r)])%list.
Proof.
  intros H. unfold on_all. rewrite H.
  pose proof (builds_loadBackend cwd r w) as B.
  unfold catch, bind, modify.
  destruct (loadBackend cwd r w) as [[[]|e] w1]; simpl in *; exact B.
Qed.

(** C2.  A rebuild whose bundle step throws: [loadBackend] rejects
    with the build error and has not touched the route table; the
    watcher's handler catches it, writes the failure to the console
    and returns normally, with the route table and the listener as
    they were. *)
Theorem failed_rebuild_keeps_routes (cwd event path : string) r w :
  actionable path = true ->
  build_ok r = false ->
  fst (loadBackend cwd r w) = Thrown BuildError
  /\ stack (snd (loadBackend cwd r w)) = stack w
  /\ fst (on_all cwd event path r w) = Returned tt
  /\ stack (snd (on_all cwd event path r w)) = stack w
  /\ console (snd (on_all cwd event path r w))
     = (console w ++ [console_error "Failed to build backend"])%list
  /\ listening (snd (on_all cwd event path r w)) = listening w.
Proof.
  intros Hact Hbuild. unfold on_all. rewrite Hact.
  unfold catch, bind. rewrite (loadBackend_build_fails cwd r w Hbuild).
  simpl. repeat split; reflexivity.
Qed.

(** C4.  A bundle that builds and loads but exports no
    [registerRoutes]: [loadBackend] writes the violation to the
    console, leaves the route table as it was, and resolves. *)
Theorem missing_export_skips_swap (cwd : string) r w
        (backend : Module_ route) :
  build_ok r = true ->
  imported r = Some backend ->
  registerRoutes backend = None ->
  fst (loadBackend cwd r w) = Returned tt
  /\ stack (snd (loadBackend cwd r w)) = stack w
  /\ console (snd (loadBackend cwd r w))
     = (console w ++
        [console_error "Backend module has no registerRoutes export!"])%list.
Proof.
  intros Hb Hi He.
  run_steps. rewrite Hb, Hi. simpl. rewrite He. simpl.
  repeat split; reflexivity.
Qed.

(** C5.  The handler starts a rebuild (one more [build] call, for the
    bundle of the current clock reading) exactly when the path ends in
    [.ts] and is not [server/index.ts]; otherwise it does nothing at all.
    The event type plays no part. *)
Theorem rebuild_iff_actionable (cwd event path : string) r w :
  let condition :=
    (exists p, path = (p ++ ".ts")%string) /\ path <> "server/index.ts" in
  (builds (snd (on_all cwd event path r w))
   = (builds w ++ [outfile cwd (now r)])%list <-> condition)
  /\ (List.length (builds (snd (on_all cwd event path r w)))
      = S (List.length (builds w)) <-> condition)
  /\ (~ condition -> on_all cwd event path r w = (Returned tt, w))
  /\ (forall event', on_all cwd event' path r w = on_all cwd event path r w).
Proof.
  intros condition.
  assert (Hno : ~ condition -> on_all cwd event path r w = (Returned tt, w)).
  { intros Hn. unfold on_all.
    destruct (actionable path) eqn:E; [|reflexivity].
    apply actionable_spec in E. contradiction. }
  assert (Hyes : condition ->
            builds (snd (on_all cwd event path r w))
            = (builds w ++ [outfile cwd (now r)])%list).
  { intros Hc. apply builds_on_all. now apply actionable_spec. }
  assert (Hdec : condition \/ ~ condition).
  { destruct (actionable path) eqn:E.
    - left. now apply actionable_spec.
    - right. intros Hc. apply actionable_spec in Hc. congruence. }
  split; [| split; [| split; [exact Hno | reflexivity]]].
  - split; [| exact Hyes].
    intros Hb. destruct Hdec as [Hc | Hn]; [exact Hc |].
    rewrite (Hno Hn) in Hb. simpl in Hb.
    apply (f_equal (@List.length string)) in Hb.
    rewrite length_app in Hb. simpl in Hb. lia.
  - split.
    + intros Hb. destruct Hdec as [Hc | Hn]; [exact Hc |].
      rewrite (Hno Hn) in Hb. simpl in Hb. lia.
    + intros Hc. rewrite (Hyes Hc), length_app. simpl. lia.
Qed.

(** C6, as the code has it.  The file name of a build is fixed by the
    clock reading taken when [loadBackend] starts: two builds get the
    same name exactly when their readings are equal, and the token
    that pruning later reads off the name is that reading. *)
Theorem outfile_follows_clock (cwd : string) (r1 r2 : Reply route) w :
  let w1 := snd (loadBackend cwd r1 w) in
  let w2 := snd (loadBackend cwd r2 w1) in
  builds w2
  = (builds w ++ [outfile cwd (now r1); outfile cwd (now r2)])%list
  /\ (outfile cwd (now r1) = outfile cwd (now r2) <-> now r1 = now r2)
  /\ timestamp_of (bundle_name (now r1)) = to_number (now r1)
  /\ timestamp_of (bundle_name (now r2)) = to_number (now r2).
Proof.
  intros w1 w2. split; [| split; [| split]].
  - unfold w2, w1. rewrite !builds_loadBackend, <- app_assoc. reflexivity.
  - split; [apply outfile_inj | now intros ->].
  - apply timestamp_of_bundle_name.
  - apply timestamp_of_bundle_name.
Qed.

(** C1, as the code has it.  When the initial [loadBackend] throws,
    the failure is caught and written to the console, and start-up
    goes on to [app.listen] with the configured port, the route table
    being as the failed load left it.  The port is what
    [parseInt(PORT || "3000", 10)] reads: when that is an integer from
    0 to 65535 the listener is asked for on it, and it is 3000 when
    [PORT] is not set; otherwise [app.listen] throws, no listener is
    asked for, and start-up ends there. *)
Theorem startup_survives_failed_load (env : Env) r w (e : exn) :
  fst (loadBackend (cwd env) r w) = Thrown e ->
  let port := Port.parseInt (or_else (PORT env) "3000") in
  In (console_error "Failed to build backend")
     (console (snd (main env r w)))
  /\ stack (snd (main env r w)) = stack (snd (loadBackend (cwd env) r w))
  /\ (forall p, Port.validatePort port = Some p ->
        listening (snd (main env r w)) = Some (Num p))
  /\ (PORT env = None -> listening (snd (main env r w)) = Some (Num 3000))
  /\ (Port.validatePort port = None ->
        fst (main env r w) = Thrown BadPort
        /\ listening (snd (main env r w)) = listening w).
Proof.
  intros H port.
  assert (L : listening (snd (loadBackend (cwd env) r w)) = listening w).
  { clear H. run_steps.
    destruct (build_ok r); simpl; [| reflexivity].
    destruct (imported r) as [backend|]; simpl; [| reflexivity].
    destruct (registerRoutes backend) as [reg|]; simpl; [| reflexivity].
    destruct (reg []) as [s [x|]]; reflexivity. }
  assert (G : forall p, Port.validatePort port = Some p ->
            In (console_error "Failed to build backend")
               (console (snd (main env r w)))
            /\ stack (snd (main env r w))
               = stack (snd (loadBackend (cwd env) r w))
            /\ listening (snd (main env r w)) = Some (Num p)).
  { intros p Hp. unfold main, listen. fold port. rewrite Hp.
    unfold listening_event, setupVite, serveStatic, catch, bind, modify,
      throw, ret.
    destruct (loadBackend (cwd env) r w) as [res w1]. simpl in H. subst res.
    simpl.
    destruct (development env), (public_built env), (bind_ok env),
      (vite_ok env); simpl;
      (split; [| split; reflexivity]);
      rewrite ?in_app_iff; simpl; auto 6. }
  assert (B : Port.validatePort port = None ->
            In (console_error "Failed to build backend")
               (console (snd (main env r w)))
            /\ stack (snd (main env r w))
               = stack (snd (loadBackend (cwd env) r w))
            /\ fst (main env r w) = Thrown BadPort
            /\ listening (snd (main env r w)) = listening w).
  { intros Hp. rewrite <- L. unfold main, listen. fold port. rewrite Hp.
    unfold catch, bind, modify, throw.
    destruct (loadBackend (cwd env) r w) as [res w1]. simpl in H. subst res.
    simpl. repeat split. apply in_or_app; right; simpl; auto. }
  destruct (Port.validatePort port) as [p|] eqn:V.
  - destruct (G p eq_refl) as (G1 & G2 & G3).
    split; [exact G1 | split; [exact G2 | split; [| split]]].
    + intros q Hq. injection Hq as <-. exact G3.
    + intros HP. rewrite G3. unfold port in V. rewrite HP in V.
      injection V as <-. reflexivity.
    + discriminate.
  - destruct (B eq_refl) as (B1 & B2 & B3 & B4).
    split; [exact B1 | split; [exact B2 | split; [| split]]].
    + discriminate.
    + intros HP. unfold port in V. rewrite HP in V. discriminate V.
    + intros _. split; assumption.
Qed.

End Facts.

Lemma failed_rebuild_keeps_routes_witness :
  let w := mkWorld ["/hello"; "*"] [] [] [] 0 (Some (Num 3000)) false true true in
  let r := mkReply 1700000000000%N false (Some hello) in
  fst (on_all "/app" "change" "server/routes/hello.ts" r w) = Returned tt
  /\ stack (snd (on_all "/app" "change" "server/routes/hello.ts" r w))
     = ["/hello"; "*"].
Proof.
  intros w r.
  destruct (failed_rebuild_keeps_routes string "/app" "change"
              "server/routes/hello.ts" r w eq_refl eq_refl)
    as (_ & _ & H1 & H2 & _).
  split; [exact H1 | exact H2].
Defined.

Lemma missing_export_skips_swap_witness :
  let w := mkWorld ["/hello"; "*"] [] [] [] 0 (Some (Num 3000)) false true true in
  let r := mkReply 1700000000000%N true (Some (mkModule None)) in
  stack (snd (loadBackend "/app" r w)) = ["/hello"; "*"].
Proof.
  intros w r.
  destruct (missing_export_skips_swap string "/app" r w (mkModule None)
              eq_refl eq_refl eq_refl) as (_ & H & _).
  exact H.
Defined.

(** C6 as stated fails: two change events are handled while the clock
    shows the same millisecond; both builds are given the same file. *)
Lemma same_millisecond_same_outfile :
  let r := mkReply 1700000000000%N true (Some hello) in
  let w1 := snd (on_all "/app" "change" "server/backend.ts" r boot) in
  let w2 := snd (on_all "/app" "change" "server/routes/hello.ts" r w1) in
  builds w2 = ["/app/dist/server/backend.dist.1700000000000.cjs";
               "/app/dist/server/backend.dist.1700000000000.cjs"]
  /\ ~ NoDup (builds w2).
Proof.
  intros r w1 w2. split; [reflexivity |].
  intros H. inversion H as [|? ? Hn _]; subst. apply Hn. simpl. auto.
Qed.

(** C1 as stated fails: the initial build throws, and the listener is
    opened on port 3000 all the same. *)
Lemma failed_initial_build_still_listens :
  let env := mkEnv "/app" None true true true true "10:00:00 AM" in
  let r := mkReply (route := string) 1700000000000%N false None in
  fst (loadBackend (cwd env) r boot) = Thrown BuildError
  /\ fst (main env r boot) = Returned tt
  /\ listening (snd (main env r boot)) = Some (Num 3000).
Proof. intros env r. repeat split; reflexivity. Qed.

Lemma startup_survives_failed_load_witness :
  let env := mkEnv "/app" (Some "8080") false true true true "10:00:00 AM" in
  let r := mkReply (route := string) 1700000000000%N false None in
  listening (snd (main env r boot)) = Some (Num 8080).
Proof.
  intros env r.
  destruct (startup_survives_failed_load string env r boot BuildError eq_refl)
    as (_ & _ & H & _).
  exact (H 8080%N eq_refl).
Defined.

End Reload.

(** ** The cache-busting token of the HTML fallback *)
Module Freshness.
Import JsString Vite StringFacts.

Lemma url_safe_not_dollar (c : ascii) :
  url_safe c = true -> Ascii.eqb c "$" = false.
Proof.
  intros H. destruct (Ascii.eqb_spec c "$") as [->|]; [|reflexivity].
  discriminate H.
Qed.

Lemma all_url_safe_lacks_dollar (id : string) :
  all_url_safe id = true -> lacks "$" id = true.
Proof.
  induction id as [|c id IH]; simpl; [reflexivity |].
  intros H. apply andb_true_iff in H as [Hc Hid].
  now rewrite (url_safe_not_dollar c Hc), IH.
Qed.

Lemma busted_ref_lacks_dollar (id : string) :
  all_url_safe id = true -> lacks "$" (busted_ref id) = true.
Proof.
  intros H. unfold busted_ref, script_ref.
  rewrite !lacks_append, (all_url_safe_lacks_dollar id H). reflexivity.
Qed.

Lemma rewrite_at_first (template pre post id : string) :
  split_first entry_ref template = Some (pre, post) ->
  all_url_safe id = true ->
  rewrite template id = pre ++ busted_ref id ++ post.
Proof.
  intros S H. unfold rewrite, replace. rewrite S.
  now rewrite GetSubstitution_plain by now apply busted_ref_lacks_dollar.
Qed.

Lemma script_ref_inj (a b : string) : script_ref a = script_ref b -> a = b.
Proof. unfold script_ref. apply append_inj_l. Qed.

Lemma busted_ref_inj (a b : string) : busted_ref a = busted_ref b -> a = b.
Proof.
  unfold busted_ref. intros H.
  apply append_inj_l, append_inj_l, append_inj_r in H.
  now apply script_ref_inj.
Qed.

Section Handler.
Variable transformIndexHtml : string -> string -> option string.

(** C7.  For a template that holds the entry-script reference, the
    handler hands to the transform pipeline the template read for this
    request with the first such reference rewritten to carry the
    identifier generated for this request, and answers 200 with the
    pipeline's result.  Two runs with different identifiers embed
    different script references; on the same template the rewritten
    pages differ, and so do the responses whenever the pipeline does
    not map different pages to the same result. *)
Theorem fresh_identifier_fresh_reference
        (template1 template2 id1 id2 url1 url2 : string) :
  (exists a b, template1 = a ++ entry_ref ++ b) ->
  (exists a b, template2 = a ++ entry_ref ++ b) ->
  is_nanoid id1 = true -> is_nanoid id2 = true ->
  id1 <> id2 ->
  exists pre1 post1 pre2 post2,
    template1 = pre1 ++ entry_ref ++ post1
    /\ template2 = pre2 ++ entry_ref ++ post2
    /\ rewrite template1 id1
       = pre1 ++ "src=" ++ dquote ++ script_ref id1 ++ dquote ++ post1
    /\ rewrite template2 id2
       = pre2 ++ "src=" ++ dquote ++ script_ref id2 ++ dquote ++ post2
    /\ script_ref id1 <> script_ref id2
    /\ fallback transformIndexHtml (Some template1) id1 url1
       = match transformIndexHtml url1 (rewrite template1 id1) with
         | Some page => Page 200 [("Content-Type", "text/html")] page
         | None => Next TransformError
         end
    /\ fallback transformIndexHtml (Some template2) id2 url2
       = match transformIndexHtml url2 (rewrite template2 id2) with
         | Some page => Page 200 [("Content-Type", "text/html")] page
         | None => Next TransformError
         end
    /\ (template1 = template2 ->
        rewrite template1 id1 <> rewrite template2 id2)
    /\ (template1 = template2 -> url1 = url2 ->
        (forall h h' p, transformIndexHtml url1 h = Some p ->
                        transformIndexHtml url1 h' = Some p -> h = h') ->
        forall s1 hs1 p1 s2 hs2 p2,
          fallback transformIndexHtml (Some template1) id1 url1
          = Page s1 hs1 p1 ->
          fallback transformIndexHtml (Some template2) id2 url2
          = Page s2 hs2 p2 ->
          p1 <> p2).
Proof.
  intros E1 E2 N1 N2 Hne.
  apply andb_true_iff in N1 as [_ N1]. apply andb_true_iff in N2 as [_ N2].
  destruct (split_first entry_ref template1) as [[pre1 post1]|] eqn:S1;
    [| now apply split_first_complete in E1].
  destruct (split_first entry_ref template2) as [[pre2 post2]|] eqn:S2;
    [| now apply split_first_complete in E2].
  pose proof (rewrite_at_first _ _ _ _ S1 N1) as R1.
  pose proof (rewrite_at_first _ _ _ _ S2 N2) as R2.
  assert (D : template1 = template2 ->
              rewrite template1 id1 <> rewrite template2 id2).
  { intros <- E. rewrite S1 in S2. injection S2 as <- <-.
    rewrite R1, R2 in E.
    apply append_inj_l, append_inj_r, busted_ref_inj in E. contradiction. }
  exists pre1, post1, pre2, post2.
  split; [now apply split_first_sound |].
  split; [now apply split_first_sound |].
  split; [rewrite R1; unfold busted_ref; now rewrite !append_assoc |].
  split; [rewrite R2; unfold busted_ref; now rewrite !append_assoc |].
  split; [intros E; now apply script_ref_inj in E |].
  split; [reflexivity |].
  split; [reflexivity |].
  split; [exact D |].
  intros ET <- Hinj s1 hs1 p1 s2 hs2 p2 F1 F2 <-.
  unfold fallback in F1, F2.
  destruct (transformIndexHtml url1 (rewrite template1 id1)) eqn:T1;
    [| discriminate].
  destruct (transformIndexHtml url1 (rewrite template2 id2)) eqn:T2;
    [| discriminate].
  injection F1 as _ _ ->. injection F2 as _ _ ->.
  apply (D ET). eapply Hinj; eassumption.
Qed.

End Handler.

Lemma fresh_identifier_fresh_reference_witness :
  let template :=
    "<script type=module " ++ entry_ref ++ "></script>" in
  rewrite template "V1StGXR8_Z5jdHi6B-myT"
  <> rewrite template "0123456789abcdefghijk".
Proof.
  intros template.
  destruct (fresh_identifier_fresh_reference (fun _ html => Some html)
              template template
              "V1StGXR8_Z5jdHi6B-myT" "0123456789abcdefghijk" "/" "/")
    as (pre1 & post1 & pre2 & post2 & _ & _ & _ & _ & _ & _ & _ & D & _).
  - exists "<script type=module ", "></script>". reflexivity.
  - exists "<script type=module ", "></script>". reflexivity.
  - reflexivity.
  - reflexivity.
  - discriminate.
  - apply D. reflexivity.
Defined.

End Freshness.

(** ** The logging middleware *)
Module LogFacts.
Import Logger.
Local Open Scope list_scope.

Lemma trimmedResponse_short (s : ustring) :
  (List.length s <= 100)%nat -> trimmedResponse s = s.
Proof.
  intros H. unfold trimmedResponse.
  destruct (Nat.ltb_spec 100 (List.length s)); [lia | reflexivity].
Qed.

Lemma trimmedResponse_long (s : ustring) :
  (100 < List.length s)%nat ->
  trimmedResponse s = slice0 100 s ++ ellipsis.
Proof.
  intros H. unfold trimmedResponse.
  destruct (Nat.ltb_spec 100 (List.length s)); [reflexivity | lia].
Qed.

Lemma length_trimmedResponse (s : ustring) :
  (List.length (trimmedResponse s) <= 100 + List.length ellipsis)%nat.
Proof.
  unfold trimmedResponse, slice0.
  destruct (Nat.ltb_spec 100 (List.length s)) as [H|H].
  - rewrite length_app, firstn_length_le by lia. lia.
  - lia.
Qed.

Lemma cap_short (l : ustring) : (List.length l <= 200)%nat -> cap l = l.
Proof.
  intros H. unfold cap.
  destruct (Nat.ltb_spec 200 (List.length l)); [lia | reflexivity].
Qed.

Lemma cap_long (l : ustring) :
  (200 < List.length l)%nat -> cap l = slice0 79 l ++ ellipsis.
Proof.
  intros H. unfold cap.
  destruct (Nat.ltb_spec 200 (List.length l)); [reflexivity | lia].
Qed.

Lemma length_cap (l : ustring) : (List.length (cap l) <= 200)%nat.
Proof.
  unfold cap, slice0.
  destruct (Nat.ltb_spec 200 (List.length l)) as [H|H]; [| exact H].
  rewrite length_app, firstn_length_le by lia. simpl. lia.
Qed.

Section Middleware.
Variable value : Type.
Variable undefined : value.
Variable truthy : value -> bool.
Variable has_keys : value -> bool.
Variable JSON_stringify : value -> stringified.

Lemma add_response_snippet (captured : option value) (v : value)
      (responseStr front logLine : ustring) :
  captured = Some v -> truthy v = true ->
  JSON_stringify v = Text responseStr ->
  add_response truthy JSON_stringify captured front = Some logLine ->
  logLine = front ++ lit " :: response: " ++ trimmedResponse responseStr.
Proof.
  intros -> Ht Hs. unfold add_response. rewrite Ht, Hs.
  now intros [= <-].
Qed.

(** C8.  Every line that the listener gives to [log] is the composed
    line after the cap: at most 200 code units, the composed line
    itself when that has at most 200, else its first 79 followed by
    the marker, 82 code units in all.  When a response was captured,
    the composed line ends with the response snippet: the
    serialization itself when it has at most 100 code units, else its
    first 100 followed by the marker, 103 code units in all.  The
    marker is the three code units U+00E2 U+20AC U+00A6 of the source
    text. *)
Theorem log_line_is_bounded (req : Request value) (statusCode : N)
        (start finish : Z) (formattedTime : ustring)
        (captured : option value) (line : ustring) :
  on_finish truthy has_keys JSON_stringify req statusCode start finish
            formattedTime captured = Logged line ->
  exists logLine,
    composed truthy has_keys JSON_stringify req statusCode
             (finish - start)%Z captured = Some logLine
    /\ line = log formattedTime (cap logLine)
    /\ (List.length (cap logLine) <= 200)%nat
    /\ ((List.length logLine <= 200)%nat -> cap logLine = logLine)
    /\ ((200 < List.length logLine)%nat ->
        cap logLine = slice0 79 logLine ++ [226; 8364; 166]%N
        /\ List.length (cap logLine) = 82%nat)
    /\ (forall v responseStr,
          captured = Some v -> truthy v = true ->
          JSON_stringify v = Text responseStr ->
          let snippet := trimmedResponse responseStr in
          (exists front, logLine = front ++ lit " :: response: " ++ snippet)
          /\ (List.length snippet <= 103)%nat
          /\ ((List.length responseStr <= 100)%nat -> snippet = responseStr)
          /\ ((100 < List.length responseStr)%nat ->
              snippet = slice0 100 responseStr ++ [226; 8364; 166]%N
              /\ List.length snippet = 103%nat)).
Proof.
  unfold on_finish. intros H.
  destruct (startsWith (path req) (lit "/api")); [| discriminate].
  destruct (composed truthy has_keys JSON_stringify req statusCode
                     (finish - start) captured) as [logLine|] eqn:C;
    [| discriminate].
  injection H as <-. exists logLine.
  split; [reflexivity |]. split; [reflexivity |].
  split; [apply length_cap |]. split; [apply cap_short |].
  split.
  { intros Hl. rewrite (cap_long logLine Hl). split; [reflexivity |].
    unfold slice0. rewrite length_app, firstn_length_le by lia.
    reflexivity. }
  intros v responseStr Hc Ht Hs.
  split; [| split; [apply (length_trimmedResponse responseStr) |
                    split; [apply trimmedResponse_short |]]].
  - unfold composed in C.
    destruct (add_part truthy has_keys JSON_stringify " :: body: " (body req) _)
      as [l1|]; [| discriminate].
    destruct (add_part truthy has_keys JSON_stringify " :: query: " (query req) l1)
      as [l2|]; [| discriminate].
    exists l2. eapply add_response_snippet; eassumption.
  - intros Hl. rewrite (trimmedResponse_long responseStr Hl).
    split; [reflexivity |].
    unfold slice0. rewrite length_app, firstn_length_le by lia.
    reflexivity.
Qed.

Variable response : Type.
Variable statusCode : response -> N.
Variable returned : Type.
Variable originalResJson : list value -> response -> returned * response.

Lemma res_json_forwards (bodyJson : value) (args : list value)
      (res : response) (captured : option value) :
  res_json undefined originalResJson (bodyJson :: args) (res, captured)
  = (fst (originalResJson (bodyJson :: args) res),
     (snd (originalResJson (bodyJson :: args) res), Some bodyJson)).
Proof.
  unfold res_json. simpl.
  now destruct (originalResJson (bodyJson :: args) res).
Qed.

(** Called without arguments, the replacement calls the original with
    one argument, [undefined]. *)
Lemma res_json_no_argument (res : response) (captured : option value) :
  res_json undefined originalResJson [] (res, captured)
  = (fst (originalResJson [undefined] res),
     (snd (originalResJson [undefined] res), Some undefined)).
Proof.
  unfold res_json. simpl. now destruct (originalResJson [undefined] res).
Qed.

Lemma serve_wrapped_response (h : handler value response returned) :
  passes_body h ->
  forall (res : response) (captured : option value),
    fst (serve_wrapped undefined originalResJson h (res, captured))
    = serve originalResJson h res.
Proof.
  induction h as [| arguments k IH | f k IH]; simpl.
  - reflexivity.
  - intros [Hne Hk] res captured.
    destruct arguments as [|bodyJson args]; [congruence |].
    rewrite res_json_forwards.
    destruct (originalResJson (bodyJson :: args) res) as [r res'].
    simpl. now apply IH.
  - intros Hk res captured. now apply IH.
Qed.

Lemma serve_wrapped_blind (h : handler value response returned) :
  (forall res, originalResJson [] res = originalResJson [undefined] res) ->
  forall (res : response) (captured : option value),
    fst (serve_wrapped undefined originalResJson h (res, captured))
    = serve originalResJson h res.
Proof.
  intros Hb. induction h as [| arguments k IH | f k IH]; simpl.
  - reflexivity.
  - intros res captured. destruct arguments as [|bodyJson args].
    + rewrite res_json_no_argument, Hb.
      destruct (originalResJson [undefined] res) as [r res']. simpl. apply IH.
    + rewrite res_json_forwards.
      destruct (originalResJson (bodyJson :: args) res) as [r res'].
      simpl. apply IH.
  - intros res captured. apply IH.
Qed.

(** C9.  The replacement [res.json] gives the original the same body
    and further arguments, on the same response, and returns what it
    returns; the only thing it adds is the captured body.  So a
    handler running behind the middleware leaves the response exactly
    as it would without it.  (A call without any argument reaches the
    original with the single argument [undefined]: either the handler
    makes no such call, or the original does not tell the two apart.) *)
Theorem logger_leaves_response (req : Request value) (start finish : Z)
        (formattedTime : ustring) (h : handler value response returned)
        (res : response) :
  passes_body h \/
  (forall res0, originalResJson [] res0 = originalResJson [undefined] res0) ->
  (forall bodyJson args res0 captured,
      res_json undefined originalResJson (bodyJson :: args) (res0, captured)
      = (fst (originalResJson (bodyJson :: args) res0),
         (snd (originalResJson (bodyJson :: args) res0), Some bodyJson)))
  /\ fst (logged undefined truthy has_keys JSON_stringify statusCode
                 originalResJson req start finish formattedTime h res)
     = serve originalResJson h res.
Proof.
  intros Hh. split; [apply res_json_forwards |].
  unfold logged.
  assert (E : fst (serve_wrapped undefined originalResJson h (res, None))
              = serve originalResJson h res).
  { destruct Hh as [Hp | Hb];
      [now apply serve_wrapped_response | now apply serve_wrapped_blind]. }
  destruct (serve_wrapped undefined originalResJson h (res, None))
    as [res' captured].
  exact E.
Qed.

End Middleware.

Lemma log_line_is_bounded_witness :
  let req := mkRequest (lit "POST") (lit "/api/hello") (repeat 98%N 150) [] in
  let truthy := fun v : ustring => negb (Nat.eqb (List.length v) 0) in
  let captured := Some (repeat 97%N 250) in
  exists logLine,
    composed truthy truthy Text req 200%N 5%Z captured = Some logLine
    /\ (200 < List.length logLine)%nat
    /\ (List.length (cap logLine) <= 200)%nat
    /\ List.length (cap logLine) = 82%nat.
Proof.
  intros req truthy captured.
  destruct (log_line_is_bounded ustring truthy truthy Text
              req 200%N 0%Z 5%Z (lit "10:00:00 AM") captured _ eq_refl)
    as (logLine & C & _ & L & _ & M & _).
  assert (G : (200 < List.length logLine)%nat).
  { vm_compute in C.
    rewrite <- (f_equal (fun o => match o with Some s => s | None => [] end) C).
    vm_compute. lia. }
  exists logLine.
  split; [exact C | split; [exact G | split; [exact L |]]].
  destruct (M G) as (_ & E). exact E.
Defined.

Lemma logger_leaves_response_witness :
  let req := mkRequest (lit "GET") (lit "/api/hello") 0 0 in
  let originalResJson :=
    fun (arguments : list nat) (res : list (list nat)) =>
      (tt, res ++ [arguments]) in
  let h := Json [7] (fun _ : unit => Other (fun res => res ++ [[1]]) Finish) in
  fst (logged 0 (fun v => negb (Nat.eqb v 0)) (fun _ => false)
              (fun _ => Undefined) (fun _ => 200%N) originalResJson
              req 0%Z 5%Z (lit "10:00:00 AM") h [])
  = [[7]; [1]].
Proof.
  intros req originalResJson h.
  destruct (logger_leaves_response nat 0 (fun v => negb (Nat.eqb v 0))
              (fun _ => false) (fun _ => Undefined) (list (list nat))
              (fun _ => 200%N) unit originalResJson
              req 0%Z 5%Z (lit "10:00:00 AM") h [])
    as (_ & E).
  - left. simpl. split; [discriminate | intros _; exact I].
  - rewrite E. reflexivity.
Defined.

End LogFacts.

(** ** Lines and substrings *)
Module TextFacts.
Import JsString JsText StringFacts.

Lemma split_cons (sep : ascii) (s : string) :
  exists piece pieces, split sep s = piece :: pieces.
Proof.
  destruct s as [|c s]; simpl; [eauto |].
  destruct (Ascii.eqb c sep); [eauto |].
  destruct (split sep s); eauto.
Qed.

Lemma join_cons (sep : ascii) (piece : string) (pieces : list string) :
  pieces <> [] ->
  join sep (piece :: pieces) = piece ++ String sep (join sep pieces).
Proof. destruct pieces; [congruence | reflexivity]. Qed.

(** Splitting and joining again gives the text back. *)
Lemma join_split (sep : ascii) (s : string) : join sep (split sep s) = s.
Proof.
  induction s as [|c s IH]; [reflexivity |].
  cbn [split]. destruct (Ascii.eqb_spec c sep) as [->|Hc].
  - destruct (split_cons sep s) as (p & ps & E).
    rewrite join_cons by (rewrite E; discriminate). now rewrite IH.
  - destruct (split_cons sep s) as (p & ps & E). rewrite E in *.
    destruct ps as [|q ps].
    + unfold join in *. simpl in *. now rewrite IH.
    + rewrite join_cons in * by discriminate. simpl. now rewrite IH.
Qed.

Lemma split_lacks (sep : ascii) (s : string) :
  Forall (fun piece => lacks sep piece = true) (split sep s).
Proof.
  induction s as [|c s IH]; [repeat constructor |].
  cbn [split]. destruct (Ascii.eqb_spec c sep) as [->|Hc].
  - constructor; [reflexivity | exact IH].
  - destruct (split sep s) as [|p ps]; [repeat constructor |].
    + simpl. apply Ascii.eqb_neq in Hc. now rewrite Hc.
    + inversion IH as [|? ? Hp Hps]; subst. constructor; [| exact Hps].
      simpl. apply Ascii.eqb_neq in Hc. now rewrite Hc, Hp.
Qed.

Lemma split_app (sep : ascii) (piece rest : string) :
  lacks sep piece = true ->
  split sep (piece ++ String sep rest) = piece :: split sep rest.
Proof.
  induction piece as [|c p IH]; simpl; intros H.
  - now rewrite Ascii.eqb_refl.
  - apply andb_true_iff in H as [Hc Hp]. apply negb_true_iff in Hc.
    rewrite Hc, IH by exact Hp. reflexivity.
Qed.

Lemma split_single (sep : ascii) (piece : string) :
  lacks sep piece = true -> split sep piece = [piece].
Proof.
  induction piece as [|c p IH]; simpl; intros H; [reflexivity |].
  apply andb_true_iff in H as [Hc Hp]. apply negb_true_iff in Hc.
  rewrite Hc, IH by exact Hp. reflexivity.
Qed.

(** Joining pieces that hold no separator and splitting again gives the
    pieces back. *)
Lemma split_join (sep : ascii) (pieces : list string) :
  pieces <> [] ->
  Forall (fun piece => lacks sep piece = true) pieces ->
  split sep (join sep pieces) = pieces.
Proof.
  induction pieces as [|p ps IH]; [congruence |].
  intros _ H. inversion H as [|? ? Hp Hps]; subst.
  destruct ps as [|q ps].
  - unfold join. simpl. now apply split_single.
  - rewrite join_cons by discriminate.
    rewrite split_app by exact Hp. f_equal. apply IH; [discriminate | exact Hps].
Qed.

Lemma includes_spec (s pat : string) :
  includes s pat = true <-> exists a b, s = a ++ pat ++ b.
Proof.
  unfold includes. split.
  - destruct (split_first pat s) as [[a b]|] eqn:E; [| discriminate].
    intros _. exists a, b. now apply split_first_sound.
  - intros H. apply split_first_complete in H.
    now destruct (split_first pat s).
Qed.

(** What is found in a text is found in any text around it. *)
Lemma includes_around (a s b pat : string) :
  includes s pat = true -> includes (a ++ s ++ b) pat = true.
Proof.
  rewrite !includes_spec. intros (x & y & ->).
  exists (a ++ x), (y ++ b). now rewrite !append_assoc.
Qed.

Lemma toLowerCase_append (a b : string) :
  toLowerCase (a ++ b) = toLowerCase a ++ toLowerCase b.
Proof. induction a as [|c a IH]; simpl; [reflexivity | now rewrite IH]. Qed.

Lemma lower_lower (c : ascii) : lower (lower c) = lower c.
Proof. destruct c as [[] [] [] [] [] [] [] []]; reflexivity. Qed.

Lemma toLowerCase_idempotent (s : string) :
  toLowerCase (toLowerCase s) = toLowerCase s.
Proof.
  induction s as [|c s IH]; simpl; [reflexivity |].
  now rewrite lower_lower, IH.
Qed.

End TextFacts.

(** ** [logError] *)
Module ErrorLogFacts.
Import JsString JsText ErrorLog StringFacts TextFacts.

Lemma filter_all (A : Type) (f : A -> bool) (l : list A) :
  (forall x, In x l -> f x = true) -> filter f l = l.
Proof.
  induction l as [|x l IH]; simpl; intros H; [reflexivity |].
  rewrite (H x) by auto. f_equal. apply IH. auto.
Qed.

(** A stack without a line of [node_modules] or of Node's internals is
    printed as it is, behind the message. *)
Theorem logError_keeps_clean_stack (err : Error) (trace : string) :
  stack err = Some trace -> trace <> "" ->
  (forall line, In line (split LF trace) -> noise line = false) ->
  logError err = Message ("Error: " ++ message err ++ String LF trace).
Proof.
  intros Hs Hne Hclean. unfold logError. rewrite Hs.
  destruct trace as [|c t]; [congruence |].
  unfold filtered. rewrite !filter_all, join_split; [reflexivity | |].
  - intros line Hl. apply Hclean in Hl. unfold noise in Hl.
    apply orb_false_iff in Hl as [Hl _]. now rewrite Hl.
  - intros line Hl. rewrite filter_all in Hl.
    + apply Hclean in Hl. unfold noise in Hl.
      apply orb_false_iff in Hl as [_ Hl]. now rewrite Hl.
    + intros x Hx. apply Hclean in Hx. unfold noise in Hx.
      apply orb_false_iff in Hx as [Hx _]. now rewrite Hx.
Qed.

Lemma logError_keeps_clean_stack_witness :
  let trace := "TypeError: x" ++ String LF "    at handler (server/routes/hello.ts:8:5)" in
  logError (mkError "x" (Some trace))
  = Message ("Error: x" ++ String LF trace).
Proof.
  intros trace.
  apply (logError_keeps_clean_stack (mkError "x" (Some trace)) trace).
  - reflexivity.
  - discriminate.
  - intros line [<- | [<- | []]]; reflexivity.
Defined.

(** Whatever the stack, no line of what is printed behind the message
    mentions [node_modules] or [internal], and every line printed is a
    line of the stack (or nothing is left of it). *)
Theorem logError_prints_no_noise (err : Error) (text : string) :
  logError err = Message text ->
  exists trace body,
    stack err = Some trace
    /\ text = "Error: " ++ message err ++ String LF body
    /\ forall line, In line (split LF body) ->
         noise line = false /\ (In line (split LF trace) \/ body = "").
Proof.
  unfold logError. destruct (stack err) as [[|c t]|] eqn:Hs; try discriminate.
  intros [= <-]. exists (String c t), (filtered (String c t)).
  split; [reflexivity | split; [reflexivity |]].
  intros line Hl. unfold filtered in *.
  set (kept := filter (fun l => negb (includes l "internal"))
                 (filter (fun l => negb (includes l "node_modules"))
                    (split LF (String c t)))) in *.
  assert (Hk : forall l, In l kept ->
             noise l = false /\ In l (split LF (String c t))).
  { intros l Hin. unfold kept in Hin.
    apply filter_In in Hin as [Hin H2]. apply filter_In in Hin as [Hin H1].
    apply negb_true_iff in H1, H2. unfold noise. now rewrite H1, H2. }
  destruct kept as [|k ks] eqn:E.
  - simpl in Hl. destruct Hl as [<- | []]. split; [reflexivity | now right].
  - rewrite split_join in Hl.
    + destruct (Hk line Hl) as [Hn Hi]. split; [exact Hn | now left].
    + discriminate.
    + assert (Hsub : forall l, In l (k :: ks) -> lacks LF l = true).
      { intros l Hin. apply Hk in Hin as [_ Hin].
        pose proof (split_lacks LF (String c t)) as F.
        rewrite Forall_forall in F. now apply F. }
      apply Forall_forall. exact Hsub.
Qed.

Lemma logError_prints_no_noise_witness :
  let trace := "Error: boom" ++ String LF
               "    at x (node_modules/express/lib/router/layer.js:95:5)" in
  exists body,
    logError (mkError "boom" (Some trace))
    = Message ("Error: boom" ++ String LF body)
    /\ forall line, In line (split LF body) -> noise line = false.
Proof.
  intros trace.
  destruct (logError_prints_no_noise (mkError "boom" (Some trace))
              ("Error: boom" ++ String LF "Error: boom") eq_refl)
    as (t & body & _ & E & H).
  exists body. split.
  - simpl in E. injection E as <-. reflexivity.
  - intros line Hl. now apply H.
Defined.

End ErrorLogFacts.

(** ** Runs of change events *)
Module WatcherFacts.
Import JsString JsNumber Bundles Backend Watcher StringFacts.

Ltac run_load :=
  unfold loadBackend, build, import, call, bind, catch, modify, throw, ret;
  simpl.

Section Facts.
Variable route : Type.
Implicit Types (w : World route) (r : Reply route) (e : change route).
Implicit Types (t : turn route) (l : Loop route).

(** The route table after one [loadBackend]. *)
Lemma stack_loadBackend (cwd : string) r w :
  stack (snd (loadBackend cwd r w))
  = match installs r with Some s => s | None => stack w end.
Proof.
  unfold installs. run_load.
  destruct (build_ok r); simpl; [| reflexivity].
  destruct (imported r) as [backend|]; simpl; [| reflexivity].
  destruct (registerRoutes backend) as [reg|]; simpl; [| reflexivity].
  destruct (reg []) as [s [x|]]; reflexivity.
Qed.

Lemma listening_loadBackend (cwd : string) r w :
  listening (snd (loadBackend cwd r w)) = listening w.
Proof.
  run_load.
  destruct (build_ok r); simpl; [| reflexivity].
  destruct (imported r) as [backend|]; simpl; [| reflexivity].
  destruct (registerRoutes backend) as [reg|]; simpl; [| reflexivity].
  destruct (reg []) as [s [x|]]; reflexivity.
Qed.

Lemma builds_loadBackend_length (cwd : string) r w :
  List.length (builds (snd (loadBackend cwd r w)))
  = S (List.length (builds w)).
Proof.
  run_load.
  destruct (build_ok r); simpl; [| rewrite length_app; simpl; lia].
  destruct (imported r) as [backend|]; simpl;
    [| rewrite length_app; simpl; lia].
  destruct (registerRoutes backend) as [reg|]; simpl;
    [| rewrite length_app; simpl; lia].
  destruct (reg []) as [s [x|]]; simpl; rewrite length_app; simpl; lia.
Qed.

(** The handler catches whatever the rebuild throws. *)
Lemma on_all_returns (cwd ev p : string) r w :
  fst (on_all cwd ev p r w) = Returned tt.
Proof.
  unfold on_all. destruct (actionable p); [| reflexivity].
  unfold catch, bind, modify.
  destruct (loadBackend cwd r w) as [[[]|x] w1]; reflexivity.
Qed.

Lemma on_all_world (cwd ev p : string) r w :
  actionable p = true ->
  stack (snd (on_all cwd ev p r w)) = stack (snd (loadBackend cwd r w))
  /\ listening (snd (on_all cwd ev p r w))
     = listening (snd (loadBackend cwd r w))
  /\ builds (snd (on_all cwd ev p r w)) = builds (snd (loadBackend cwd r w)).
Proof.
  intros H. unfold on_all. rewrite H. unfold catch, bind, modify.
  destruct (loadBackend cwd r w) as [[[]|x] w1]; simpl; auto.
Qed.

Lemma on_all_idle (cwd ev p : string) r w :
  actionable p = false -> on_all cwd ev p r w = (Returned tt, w).
Proof. intros H. unfold on_all. now rewrite H. Qed.

Lemma run_app (cwd : string) (a b : list (turn route)) l :
  run cwd (a ++ b) l = run cwd b (run cwd a l).
Proof. unfold run. apply fold_left_app. Qed.

Lemma In_put (i : nat) (b x : rebuild route) (rs : list (rebuild route)) :
  In x (put i b rs) -> x = b \/ In x rs.
Proof.
  revert i. induction rs as [|a rs IH]; intros [|i]; simpl; auto.
  - intros [H|H]; auto.
  - intros [H|H]; auto. destruct (IH i H); auto.
Qed.

Lemma put_last (b b' : rebuild route) (rs : list (rebuild route)) :
  put (List.length rs) b' (rs ++ [b]) = (rs ++ [b'])%list.
Proof. induction rs as [|a rs IH]; simpl; [reflexivity | now rewrite IH]. Qed.

Lemma nth_error_last (b : rebuild route) (rs : list (rebuild route)) :
  nth_error (rs ++ [b]) (List.length rs) = Some b.
Proof. induction rs as [|a rs IH]; simpl; auto. Qed.

(** A continuation touches the table only when an import resolves with
    an export. *)
Lemma stack_continue (b : rebuild route) w :
  (stage_of b = Importing -> build_ok (answers b) = true) ->
  stack (fst (continue b w))
  = match stage_of b with
    | Importing =>
        match installs (answers b) with Some s => s | None => stack w end
    | _ => stack w
    end.
Proof.
  intros Hb. unfold continue, installs.
  destruct (stage_of b) as [| |[x|]| | |]; try reflexivity.
  - destruct (build_ok (answers b)); reflexivity.
  - rewrite (Hb eq_refl).
    destruct (imported (answers b)) as [backend|]; [| reflexivity].
    destruct (registerRoutes backend) as [reg|]; [| reflexivity].
    destruct (reg []) as [s x]. reflexivity.
Qed.

Lemma started_by_more (pre more : list (turn route)) (b : rebuild route) :
  started_by pre b -> started_by (pre ++ more) b.
Proof.
  intros [(e & Hin & A & R) Hs]. split; [| exact Hs].
  exists e. split; [apply in_or_app; now left | split; assumption].
Qed.

Lemma step_started (cwd : string) (pre : list (turn route)) t l :
  Forall (started_by pre) (rebuilds l) ->
  Forall (started_by (pre ++ [t])) (rebuilds (step cwd t l)).
Proof.
  intros H.
  assert (H' : Forall (started_by (pre ++ [t])) (rebuilds l)).
  { eapply Forall_impl; [| exact H]. intros b. apply started_by_more. }
  destruct t as [e | i]; cbn [step].
  - unfold handle. destruct (actionable (path e)) eqn:A; [| exact H'].
    cbn [rebuilds]. apply Forall_app. split; [exact H' |].
    constructor; [| constructor]. split.
    + exists e. split; [apply in_or_app; right; now left | now split].
    + discriminate.
  - destruct (nth_error (rebuilds l) i) as [b|] eqn:Nth; [| exact H'].
    destruct (continue b (world l)) as [w' s] eqn:C. cbn [rebuilds].
    apply Forall_forall. intros x Hx. apply In_put in Hx as [-> | Hx];
      [| now apply (proj1 (Forall_forall _ _) H')].
    apply nth_error_In in Nth.
    destruct (proj1 (Forall_forall _ _) H' b Nth) as [Hev Hst].
    split; [exact Hev |]. cbn [stage_of answers]. intros ->.
    unfold continue in C.
    destruct (stage_of b) as [| |[x|]| | |];
      try (injection C as _ C; discriminate C).
    + destruct (build_ok (answers b)); [reflexivity |].
      injection C as _ C. discriminate C.
    + destruct (imported (answers b)) as [backend|];
        [| injection C as _ C; discriminate C].
      destruct (registerRoutes backend) as [reg|];
        [| injection C as _ C; discriminate C].
      destruct (reg []) as [s' x]. injection C as _ C. discriminate C.
Qed.

Lemma run_started (cwd : string) (turns pre : list (turn route)) l :
  Forall (started_by pre) (rebuilds l) ->
  Forall (started_by (pre ++ turns)) (rebuilds (run cwd turns l)).
Proof.
  revert pre l. induction turns as [|t ts IH]; intros pre l H.
  - now rewrite app_nil_r.
  - change (run cwd (t :: ts) l) with (run cwd ts (step cwd t l)).
    replace (pre ++ t :: ts)%list with ((pre ++ [t]) ++ ts)%list
      by (now rewrite <- app_assoc).
    apply IH. now apply step_started.
Qed.

(** What one turn does to the table. *)
Lemma stack_turn (cwd : string) t l :
  Forall (fun b => stage_of b = Importing -> build_ok (answers b) = true)
         (rebuilds l) ->
  stack (world (step cwd t l))
  = match mounts t l with Some s => s | None => stack (world l) end.
Proof.
  intros H. destruct t as [e | i]; cbn [step mounts].
  - unfold handle. now destruct (actionable (path e)).
  - destruct (nth_error (rebuilds l) i) as [b|] eqn:Nth; [| reflexivity].
    apply nth_error_In in Nth.
    pose proof (proj1 (Forall_forall _ _) H b Nth) as Hb.
    pose proof (stack_continue b (world l) Hb) as E.
    destruct (continue b (world l)) as [w' s]. cbn [world]. cbn [fst] in E.
    rewrite E. now destruct (stage_of b).
Qed.

(** A rebuild that is continued to its end before anything else happens
    leaves the process as the handler of [on_all] does. *)
Lemma settled_rebuild (cwd : string) e l :
  let l' := run cwd (Handle e :: repeat (Continue (List.length (rebuilds l))) 4) l in
  world l' = snd (on_all cwd (event e) (path e) (reply e) (world l))
  /\ List.length (rebuilds l')
     = if actionable (path e)
       then S (List.length (rebuilds l)) else List.length (rebuilds l).
Proof.
  destruct l as [w rs]. cbn [rebuilds world]. unfold on_all, run.
  cbn [repeat fold_left].
  change (step cwd (Handle e) (mkLoop w rs)) with (handle cwd e (mkLoop w rs)).
  unfold handle. cbn [world rebuilds].
  destruct (actionable (path e)) eqn:A.
  - assert (S1 : forall w b,
              step cwd (Continue (List.length rs)) (mkLoop w (rs ++ [b]))
              = mkLoop (fst (continue b w))
                  (rs ++ [mkRebuild (answers b) (snd (continue b w))])).
    { intros w0 b. cbn [step rebuilds world]. rewrite nth_error_last.
      destruct (continue b w0) as [w' s]. now rewrite put_last. }
    rewrite !S1. cbn [world rebuilds]. rewrite length_app. cbn [List.length].
    split; [| lia].
    unfold continue. cbn [answers stage_of]. run_load.
    destruct (build_ok (reply e)); cbn; [| reflexivity].
    destruct (imported (reply e)) as [backend|]; cbn; [| reflexivity].
    destruct (registerRoutes backend) as [reg|]; cbn; [| reflexivity].
    destruct (reg []) as [s [x|]]; reflexivity.
  - assert (S0 : step cwd (Continue (List.length rs)) (mkLoop w rs)
                 = mkLoop w rs).
    { cbn [step rebuilds].
      replace (nth_error rs (List.length rs)) with (@None (rebuild route));
        [reflexivity |].
      symmetry. apply nth_error_None. lia. }
    rewrite !S0. split; reflexivity.
Qed.

(** The run without overlap is one of the runs of the event loop. *)
Lemma dispatch_is_one_by_one (cwd : string) (events : list (change route)) l :
  world (run cwd (one_by_one (List.length (rebuilds l)) events) l)
  = dispatch cwd events (world l).
Proof.
  revert l. induction events as [|e es IH]; intros l; [reflexivity |].
  cbn [one_by_one].
  change (Handle e :: repeat (Continue (List.length (rebuilds l))) 4 ++
          one_by_one (if actionable (path e)
                      then S (List.length (rebuilds l))
                      else List.length (rebuilds l)) es)%list
    with ((Handle e :: repeat (Continue (List.length (rebuilds l))) 4) ++
          one_by_one (if actionable (path e)
                      then S (List.length (rebuilds l))
                      else List.length (rebuilds l)) es)%list.
  rewrite run_app.
  destruct (settled_rebuild cwd e l) as [W L]. cbv zeta in W, L.
  rewrite <- L, IH, W. reflexivity.
Qed.

(** However the continuations of overlapping rebuilds interleave with
    each other and with further events, the route table changes only
    in the turn in which an import resolves with a [registerRoutes]
    export, and it then becomes what that export mounts on the emptied
    table.  So after any run the table is the one the run began with or
    the whole table of one rebuild that a passing event started: that
    of the rebuild whose import resolved last. *)
Theorem table_comes_from_one_rebuild (cwd : string)
        (turns : list (turn route)) w :
  let l := run cwd turns (mkLoop w []) in
  (forall t,
      stack (world (step cwd t l))
      = match mounts t l with Some s => s | None => stack (world l) end)
  /\ (stack (world l) = stack w
      \/ exists e, In (Handle e) turns /\ actionable (path e) = true
                   /\ installs (reply e) = Some (stack (world l))).
Proof.
  assert (Inv : forall ts, Forall (started_by ts)
                             (rebuilds (run cwd ts (mkLoop w [])))).
  { intros ts. apply (run_started cwd ts [] (mkLoop w [])). constructor. }
  assert (Turn : forall ts t,
            stack (world (step cwd t (run cwd ts (mkLoop w []))))
            = match mounts t (run cwd ts (mkLoop w [])) with
              | Some s => s
              | None => stack (world (run cwd ts (mkLoop w [])))
              end).
  { intros ts t. apply stack_turn.
    eapply Forall_impl; [| exact (Inv ts)]. intros b [_ H]. exact H. }
  intros l. split; [apply Turn |]. unfold l. clear l.
  induction turns as [|t ts IH] using rev_ind; [now left |].
  rewrite run_app.
  change (run cwd [t] (run cwd ts (mkLoop w [])))
    with (step cwd t (run cwd ts (mkLoop w []))).
  rewrite Turn.
  destruct (mounts t (run cwd ts (mkLoop w []))) as [s|] eqn:M.
  - right. destruct t as [e | i]; cbn [mounts] in M; [discriminate |].
    destruct (nth_error (rebuilds (run cwd ts (mkLoop w []))) i)
      as [b|] eqn:Nth; [| discriminate].
    apply nth_error_In in Nth.
    destruct (proj1 (Forall_forall _ _) (Inv ts) b Nth)
      as [(e & Hin & A & R) _].
    exists e. split; [apply in_or_app; now left | split; [exact A |]].
    rewrite R. destruct (stage_of b); try discriminate. exact M.
  - destruct IH as [IH | (e & Hin & A & I)]; [now left | right].
    exists e. split; [apply in_or_app; now left | split; assumption].
Qed.

(** However the rebuilds end, the handler returns normally on every
    event, the run starts one build per event that passes the filter,
    and the listener is never touched. *)
Theorem dispatch_counts_builds (cwd : string) (events : list (change route)) w :
  List.length (builds (dispatch cwd events w))
  = List.length (builds w)
    + List.length (filter (fun e => actionable (path e)) events)
  /\ listening (dispatch cwd events w) = listening w
  /\ forall e w', fst (on_all cwd (event e) (path e) (reply e) w') = Returned tt.
Proof.
  split; [| split; [| intros; apply on_all_returns]].
  - revert w. induction events as [|e es IH]; intros w; [simpl; lia |].
    change (dispatch cwd (e :: es) w)
      with (dispatch cwd es (snd (on_all cwd (event e) (path e) (reply e) w))).
    rewrite IH. cbn [filter]. destruct (actionable (path e)) eqn:A.
    + destruct (on_all_world cwd (event e) (path e) (reply e) w A)
        as (_ & _ & ->).
      rewrite builds_loadBackend_length. simpl. lia.
    + rewrite on_all_idle by exact A. simpl. lia.
  - revert w. induction events as [|e es IH]; intros w; [reflexivity |].
    change (dispatch cwd (e :: es) w)
      with (dispatch cwd es (snd (on_all cwd (event e) (path e) (reply e) w))).
    rewrite IH. destruct (actionable (path e)) eqn:A.
    + destruct (on_all_world cwd (event e) (path e) (reply e) w A)
        as (_ & -> & _).
      apply listening_loadBackend.
    + now rewrite on_all_idle.
Qed.

(** [cleanupOldBundles] is queued exactly by the loads that complete: a
    load that throws, at whatever step, queues none. *)
Theorem cleanup_follows_load (cwd : string) r w :
  (fst (loadBackend cwd r w) = Returned tt
   /\ immediates (snd (loadBackend cwd r w)) = S (immediates w))
  \/ (exists x, fst (loadBackend cwd r w) = Thrown x
      /\ immediates (snd (loadBackend cwd r w)) = immediates w).
Proof.
  run_load.
  destruct (build_ok r); simpl; [| right; eauto].
  destruct (imported r) as [backend|]; simpl; [| right; eauto].
  destruct (registerRoutes backend) as [reg|]; simpl; [| left; auto].
  destruct (reg []) as [s [x|]]; simpl; [right; eauto | left; auto].
Qed.

(** A [registerRoutes] that throws does so after the table was cleared:
    the table that was live is gone, what is left is what the export
    managed to mount; the handler reports a failed build and no cleanup
    is queued. *)
Theorem failed_registration_loses_table (cwd ev p : string) r w
        (backend : Module_ route) (reg : registrar route)
        (s : list route) (x : exn) :
  actionable p = true ->
  build_ok r = true -> imported r = Some backend ->
  registerRoutes backend = Some reg -> reg [] = (s, Some x) ->
  fst (on_all cwd ev p r w) = Returned tt
  /\ stack (snd (on_all cwd ev p r w)) = s
  /\ console (snd (on_all cwd ev p r w))
     = (console w ++ [console_error "Failed to build backend"])%list
  /\ immediates (snd (on_all cwd ev p r w)) = immediates w.
Proof.
  intros A Hb Hi He Hr. unfold on_all. rewrite A. run_load.
  rewrite Hb. simpl. rewrite Hi. simpl. rewrite He. simpl. rewrite Hr. simpl.
  repeat split; reflexivity.
Qed.

End Facts.

(** Two events in a row; the rebuild of the second is the quicker one.
    The table left is that of the first event, whose import resolved
    last; had the rebuilds not overlapped it would be that of the
    second. *)
Lemma later_event_can_lose :
  let first := mkChange "change" "server/backend.ts"
                 (mkReply 1700000000001%N true (Some hello)) in
  let second := mkChange "change" "server/routes/hello.ts"
                  (mkReply 1700000000002%N true
                     (Some (mkModule (Some (fun s => ((s ++ ["/bye"])%list, None)))))) in
  let l := run "/app"
             [Handle first; Handle second;
              Continue 1; Continue 1; Continue 0; Continue 1; Continue 0;
              Continue 0; Continue 1; Continue 0]
             (mkLoop boot []) in
  stack (world l) = ["/hello"; "*"]
  /\ Forall (fun b => stage_of b = Finished) (rebuilds l)
  /\ stack (dispatch "/app" [first; second] boot) = ["/bye"].
Proof.
  intros first second l. split; [reflexivity | split; [| reflexivity]].
  repeat constructor.
Qed.

Lemma failed_registration_loses_table_witness :
  let reg : registrar string := fun s => ((s ++ ["/hello"])%list, Some RegisterError) in
  let w := mkWorld ["/hello"; "*"] [] [] [] 0 (Some (Num 3000)) false true true in
  let r := mkReply 1700000000000%N true (Some (mkModule (Some reg))) in
  stack (snd (on_all "/app" "change" "server/backend.ts" r w)) = ["/hello"].
Proof.
  intros reg w r.
  destruct (failed_registration_loses_table string "/app" "change"
              "server/backend.ts" r w (mkModule (Some reg)) reg
              ["/hello"] RegisterError eq_refl eq_refl eq_refl eq_refl eq_refl)
    as (_ & H & _).
  exact H.
Defined.

End WatcherFacts.

(** ** The newest bundle and its own prune pass *)
Module NewestFacts.
Import JsString JsNumber Bundles Backend.
Import StringFacts NamingFacts SortFacts PruneFacts.

Lemma sub_sign_Lt_Gt (a b : number) : sub_sign a b = Lt -> sub_sign b a = Gt.
Proof.
  destruct a as [x|], b as [y|]; simpl; try congruence.
  rewrite N.compare_lt_iff, N.compare_gt_iff. lia.
Qed.

Lemma is_bundle_bundle_name (t : N) : is_bundle (bundle_name t) = true.
Proof.
  unfold is_bundle. apply andb_true_iff. split.
  - apply startsWith_spec. now exists (to_string t ++ ".cjs")%string.
  - apply endsWith_spec. exists ("backend.dist." ++ to_string t)%string.
    unfold bundle_name. now rewrite append_assoc.
Qed.

(** A bundle whose timestamp is above that of every other bundle stands
    first in the sort, and no unlink is issued for it. *)
Lemma newest_not_deleted (dir : string) (files : list string) (f : string) :
  NoDup files ->
  In f (bundleFiles files) ->
  (forall g, In g (bundleFiles files) -> g <> f ->
             sub_sign (timestamp_of g) (timestamp_of f) = Lt) ->
  ~ In f (map name (filesToDelete dir files)).
Proof.
  intros ND Hf Hnew. rewrite filesToDelete_skipn.
  pose proof (sort_perm (map (mk_entry dir) (bundleFiles files))) as P.
  pose proof (sort_sorted (map (mk_entry dir) (bundleFiles files))) as S.
  assert (NDs : NoDup (map name (sort (map (mk_entry dir) (bundleFiles files))))).
  { eapply Permutation_NoDup.
    - symmetry. rewrite (Permutation_map name P), names_of_entries. reflexivity.
    - now apply NoDup_filter. }
  assert (Hin : In (mk_entry dir f) (sort (map (mk_entry dir) (bundleFiles files))))
    by (apply (Permutation_in _ (Permutation_sym P)); now apply in_map).
  destruct (sort (map (mk_entry dir) (bundleFiles files))) as [|x rest] eqn:E;
    [destruct Hin |].
  assert (Hx : In x (map (mk_entry dir) (bundleFiles files)))
    by (apply (Permutation_in _ P); now left).
  apply in_map_iff in Hx as (g & <- & Hg).
  destruct (string_dec g f) as [-> | Hgf].
  - simpl in NDs. inversion NDs as [|? ? Hnot _]; subst.
    intros Hd. apply Hnot. destruct rest as [|y rest']; [destruct Hd |].
    simpl in Hd. simpl. now right.
  - exfalso. destruct Hin as [Heq | Hin].
    + apply Hgf. exact (f_equal name Heq).
    + inversion S as [|? ? _ F]; subst. rewrite Forall_forall in F.
      specialize (F _ Hin). unfold before, le in F. simpl in F.
      apply F. apply sub_sign_Lt_Gt. now apply Hnew.
Qed.

Lemma newest_stays (cwd : string) (d : Disk) (f : string) :
  NoDup (entries d) ->
  In f (bundleFiles (entries d)) ->
  (forall g, In g (bundleFiles (entries d)) -> g <> f ->
             sub_sign (timestamp_of g) (timestamp_of f) = Lt) ->
  In f (entries (prune cwd d)).
Proof.
  intros ND Hf Hnew.
  pose proof (newest_not_deleted (distDir cwd) _ _ ND Hf Hnew) as Hnd.
  assert (He : In f (entries d))
    by (unfold bundleFiles in Hf; now apply filter_In in Hf).
  destruct (accessible d) eqn:A; [destruct (readable d) eqn:R |].
  - apply In_prune; auto.
  - rewrite cleanup_unlisted; auto.
  - rewrite cleanup_unlisted; auto.
Qed.

(** A prune pass never removes the bundle with the highest timestamp when
    that timestamp is above all others, whether the directory can be
    listed or not and whatever unlinks fail: it is among the kept ones
    and still in the directory afterwards. *)
Theorem newest_bundle_survives (cwd : string) (d : Disk) (f : string) :
  NoDup (entries d) ->
  In f (bundleFiles (entries d)) ->
  (forall g, In g (bundleFiles (entries d)) -> g <> f ->
             sub_sign (timestamp_of g) (timestamp_of f) = Lt) ->
  In f (entries (prune cwd d))
  /\ In f (map name (filesToKeep (distDir cwd) (entries d))).
Proof.
  intros ND Hf Hnew.
  pose proof (newest_not_deleted (distDir cwd) _ _ ND Hf Hnew) as Hnd.
  assert (He : In f (entries d))
    by (unfold bundleFiles in Hf; now apply filter_In in Hf).
  split.
  - destruct (accessible d) eqn:A; [destruct (readable d) eqn:R |].
    + apply In_prune; auto.
    + rewrite cleanup_unlisted; auto.
    + rewrite cleanup_unlisted; auto.
  - apply (Permutation_in _ (Permutation_sym
             (keep_delete_perm (distDir cwd) (entries d)))) in Hf.
    apply in_app_or in Hf. tauto.
Qed.

Lemma newest_bundle_survives_witness :
  let d := mkDisk true true
             ["backend.dist.1700000000002.cjs"; "backend.dist.old.cjs";
              "backend.dist.1700000000003.cjs"; "backend.dist.1700000000001.cjs"]
             (fun _ => true) in
  In "backend.dist.1700000000003.cjs" (entries (prune "/app" d)).
Proof.
  intros d.
  destruct (newest_bundle_survives "/app" d "backend.dist.1700000000003.cjs")
    as (H & _).
  - repeat constructor; simpl; intuition discriminate.
  - simpl. auto.
  - intros g Hg Hne. simpl in Hg.
    destruct Hg as [<- | [<- | [<- | [<- | []]]]];
      [reflexivity | reflexivity | congruence | reflexivity].
  - exact H.
Defined.

Section Process.
Variable route : Type.
Implicit Types (w : World route) (r : Reply route).

Lemma loadBackend_returned (cwd : string) r w :
  fst (loadBackend cwd r w) = Returned tt ->
  build_ok r = true
  /\ dist (snd (loadBackend cwd r w))
     = (if existsb (String.eqb (bundle_name (now r))) (dist w)
        then dist w else dist w ++ [bundle_name (now r)])%list
  /\ immediates (snd (loadBackend cwd r w)) = S (immediates w).
Proof.
  unfold loadBackend, build, import, call, bind, modify, throw, ret. simpl.
  destruct (build_ok r); simpl; [| discriminate].
  destruct (imported r) as [backend|]; simpl; [| discriminate].
  destruct (registerRoutes backend) as [reg|]; simpl; [| auto].
  destruct (reg []) as [s [x|]]; simpl; [discriminate | auto].
Qed.

(** A rebuild that completes, followed by the prune pass it queued: when
    the clock reading of the build is above the timestamp of every bundle
    already in the directory and no unlink fails, the bundle just built
    is still in the directory afterwards, and at most 2 bundles are. *)
Theorem rebuild_keeps_its_bundle (cwd : string) r w :
  NoDup (dist w) ->
  (now r < 2 ^ 53)%N ->
  (forall g, In g (bundleFiles (dist w)) ->
             sub_sign (timestamp_of g) (Num (now r)) = Lt) ->
  fst (loadBackend cwd r w) = Returned tt ->
  let w' := run_immediate cwd (fun _ => false) (snd (loadBackend cwd r w)) in
  In (bundle_name (now r)) (dist w')
  /\ (List.length (bundleFiles (dist w')) <= 2)%nat
  /\ immediates w' = immediates w.
Proof.
  intros ND Hlt Hold Hret w'.
  destruct (loadBackend_returned cwd r w Hret) as (_ & Hd & Hi).
  pose proof (timestamp_of_bundle_name (now r)) as Ht.
  rewrite (to_number_exact _ Hlt) in Ht.
  assert (Hfresh : ~ In (bundle_name (now r)) (dist w)).
  { intros Hin.
    assert (Hb : In (bundle_name (now r)) (bundleFiles (dist w)))
      by (apply filter_In; split; [exact Hin | apply is_bundle_bundle_name]).
    apply Hold in Hb. rewrite Ht in Hb. simpl in Hb.
    rewrite N.compare_refl in Hb. discriminate. }
  assert (Hex : existsb (String.eqb (bundle_name (now r))) (dist w) = false).
  { destruct (existsb _ (dist w)) eqn:E; [| reflexivity].
    apply existsb_exists in E as (g & Hg & Eg).
    apply String.eqb_eq in Eg. subst g. contradiction. }
  rewrite Hex in Hd.
  set (d := mkDisk true true (dist w ++ [bundle_name (now r)])%list
                   (fun _ => false)).
  assert (Hw' : dist w' = entries (prune cwd d)
                /\ immediates w' = immediates w).
  { unfold w', run_immediate. rewrite Hi, Hd. simpl. auto. }
  destruct Hw' as [Hdw Hiw]. rewrite Hdw.
  assert (NDd : NoDup (entries d)).
  { simpl. apply NoDup_app; [exact ND | repeat constructor; simpl; tauto |].
    intros x Hx [<- | []]. contradiction. }
  split; [| split; [| exact Hiw]].
  - apply (newest_stays cwd d (bundle_name (now r))); [exact NDd | |].
    + apply filter_In. split; [simpl; apply in_or_app; right; now left |].
      apply is_bundle_bundle_name.
    + intros g Hg Hne. rewrite Ht. apply Hold.
      unfold bundleFiles in *. apply filter_In in Hg as [Hg Hb].
      apply filter_In. split; [| exact Hb].
      simpl in Hg. apply in_app_or in Hg as [Hg | [<- | []]]; [exact Hg | congruence].
  - rewrite (Permutation_length
               (left_is_kept cwd d eq_refl eq_refl (fun _ => eq_refl) NDd)).
    rewrite length_map. unfold filesToKeep. apply firstn_le_length.
Qed.

End Process.

Lemma rebuild_keeps_its_bundle_witness :
  let w := mkWorld ["/hello"; "*"] [] []
             ["backend.dist.1700000000001.cjs"; "backend.dist.1700000000002.cjs"]
             0 (Some (Num 3000)) false true true in
  let r := mkReply 1700000000003%N true (Some hello) in
  In "backend.dist.1700000000003.cjs"
     (dist (run_immediate "/app" (fun _ => false) (snd (loadBackend "/app" r w)))).
Proof.
  intros w r.
  destruct (rebuild_keeps_its_bundle string "/app" r w) as (H & _).
  - repeat constructor; simpl; intuition discriminate.
  - reflexivity.
  - intros g Hg. simpl in Hg. destruct Hg as [<- | [<- | []]]; reflexivity.
  - reflexivity.
  - exact H.
Defined.

End NewestFacts.

(** ** More on the two cuts of the logger *)
Module CutFacts.
Import Logger LogFacts.
Local Open Scope list_scope.

Lemma firstn_app_exact (A : Type) (n : nat) (l r : list A) :
  (n <= List.length l)%nat -> firstn n (firstn n l ++ r) = firstn n l.
Proof.
  intros H. rewrite firstn_app, firstn_firstn, Nat.min_id.
  rewrite firstn_length_le by exact H.
  rewrite Nat.sub_diag. simpl. apply app_nil_r.
Qed.

(** The cap of lines 52-54 keeps the first 79 code units of every line,
    leaves a line of more than 200 code units with exactly 79 and the
    marker, and applied again changes nothing. *)
Theorem cap_keeps_head (logLine : ustring) :
  slice0 79 (cap logLine) = slice0 79 logLine
  /\ ((200 < List.length logLine)%nat ->
      List.length (cap logLine) = (79 + List.length ellipsis)%nat)
  /\ cap (cap logLine) = cap logLine.
Proof.
  unfold slice0.
  destruct (Nat.ltb_spec 200 (List.length logLine)) as [H|H].
  - rewrite (cap_long _ H). unfold slice0.
    assert (L : List.length (firstn 79 logLine ++ ellipsis)
                = (79 + List.length ellipsis)%nat)
      by (rewrite length_app, firstn_length_le by lia; reflexivity).
    split; [apply firstn_app_exact; lia | split; [intros _; exact L |]].
    apply cap_short. rewrite L. simpl. lia.
  - rewrite (cap_short _ H). split; [reflexivity | split; [lia |]].
    now apply cap_short.
Qed.

(** The response snippet keeps the first 100 code units of the
    serialization and is stable under a second trimming. *)
Theorem trimmedResponse_keeps_head (responseStr : ustring) :
  slice0 100 (trimmedResponse responseStr) = slice0 100 responseStr
  /\ trimmedResponse (trimmedResponse responseStr) = trimmedResponse responseStr.
Proof.
  unfold slice0.
  destruct (Nat.ltb_spec 100 (List.length responseStr)) as [H|H].
  - rewrite (trimmedResponse_long _ H). unfold slice0.
    assert (E : firstn 100 (firstn 100 responseStr ++ ellipsis)
                = firstn 100 responseStr)
      by (apply firstn_app_exact; lia).
    split; [exact E |].
    rewrite trimmedResponse_long
      by (rewrite length_app, firstn_length_le by lia; simpl; lia).
    unfold slice0. now rewrite E.
  - rewrite (trimmedResponse_short _ H). split; [reflexivity |].
    now apply trimmedResponse_short.
Qed.

End CutFacts.

(** ** Which reference the HTML fallback rewrites *)
Module RewriteFacts.
Import JsString Vite StringFacts Freshness.

(** [split_first] finds the first occurrence. *)
Lemma split_first_first (pat s pre post : string) :
  split_first pat s = Some (pre, post) ->
  forall a b, s = a ++ pat ++ b -> String.length pre <= String.length a.
Proof.
  revert pre. induction s as [|c s IH]; intros pre; cbn [split_first].
  - destruct (strip_prefix pat "") as [t|]; [| discriminate].
    intros [= <- <-] a b _. simpl. lia.
  - destruct (strip_prefix pat (String c s)) as [t|] eqn:E.
    + intros [= <- <-] a b _. simpl. lia.
    + destruct (split_first pat s) as [[pre' post']|] eqn:F; [| discriminate].
      intros [= <- <-] a b H. destruct a as [|x a]; simpl in H.
      * apply strip_prefix_spec in H. congruence.
      * injection H as _ H. simpl. apply le_n_S. now apply (IH pre' eq_refl a b).
Qed.

(** A template without the text [src="/main.tsx"] (other quotes, another
    entry file) is handed on as it was read: no token is added. *)
Theorem rewrite_without_reference (template id : string) :
  (forall a b, template <> a ++ entry_ref ++ b) ->
  rewrite template id = template.
Proof.
  intros H. unfold rewrite, replace.
  destruct (split_first entry_ref template) as [[pre post]|] eqn:E;
    [| reflexivity].
  apply split_first_sound in E. now apply H in E.
Qed.

Lemma rewrite_without_reference_witness :
  rewrite "<script type=module src='/main.tsx'></script>" "V1StGXR8_Z5jdHi6B-myT"
  = "<script type=module src='/main.tsx'></script>".
Proof.
  apply rewrite_without_reference.
  intros a b H.
  assert (E : JsText.includes "<script type=module src='/main.tsx'></script>"
                entry_ref = true)
    by (apply TextFacts.includes_spec; eauto).
  discriminate E.
Defined.

(** With several references in the template, the one that gets the token
    is the first; the text before it and everything after it, later
    references included, stay as they are, and the page grows by the 24
    characters of [?v=] and the identifier. *)
Theorem rewrite_first_reference (template id : string) :
  (exists a b, template = a ++ entry_ref ++ b) ->
  is_nanoid id = true ->
  exists pre post,
    template = pre ++ entry_ref ++ post
    /\ (forall a b, template = a ++ entry_ref ++ b ->
                    String.length pre <= String.length a)
    /\ rewrite template id = pre ++ busted_ref id ++ post
    /\ String.length (rewrite template id) = String.length template + 24.
Proof.
  intros Hex Hid. apply andb_true_iff in Hid as [Hlen Hsafe].
  apply Nat.eqb_eq in Hlen.
  destruct (split_first entry_ref template) as [[pre post]|] eqn:E;
    [| now apply split_first_complete in Hex].
  exists pre, post.
  pose proof (split_first_sound _ _ _ _ E) as Hs.
  pose proof (rewrite_at_first _ _ _ _ E Hsafe) as Hr.
  split; [exact Hs | split; [now apply split_first_first with (post := post) |]].
  split; [exact Hr |].
  rewrite Hr, Hs. unfold busted_ref, script_ref, entry_ref.
  repeat (rewrite ?length_append; simpl). lia.
Qed.

Lemma rewrite_first_reference_witness :
  let template := "<a " ++ entry_ref ++ "><b " ++ entry_ref ++ ">" in
  rewrite template "V1StGXR8_Z5jdHi6B-myT"
  = "<a " ++ busted_ref "V1StGXR8_Z5jdHi6B-myT" ++ "><b " ++ entry_ref ++ ">".
Proof.
  intros template.
  destruct (rewrite_first_reference template "V1StGXR8_Z5jdHi6B-myT")
    as (pre & post & _ & _ & H & _).
  - exists "<a ", ("><b " ++ entry_ref ++ ">"). reflexivity.
  - reflexivity.
  - reflexivity.
Defined.

End RewriteFacts.

(** ** The redirect callback *)
Module AuthFacts.
Import JsString Auth StringFacts.

Lemma startsWith_refl (s : string) : startsWith s s = true.
Proof. apply startsWith_spec. exists "". now rewrite append_nil_r. Qed.

Lemma redirect_prefix (NEXTAUTH_URL : option string) (url baseUrl : string) :
  startsWith (redirect NEXTAUTH_URL url baseUrl)
             (or_else NEXTAUTH_URL baseUrl) = true.
Proof.
  unfold redirect. destruct (startsWith url "/").
  - apply startsWith_spec. now exists url.
  - destruct (startsWith url (or_else NEXTAUTH_URL baseUrl)) eqn:E;
      [exact E | apply startsWith_refl].
Qed.

(** Whatever [url] is asked for, the callback answers with an address
    that begins with the configured base ([NEXTAUTH_URL], else
    [baseUrl]): the base followed by [url] for a path, [url] itself when
    it begins with the base, the base alone otherwise. *)
Theorem redirect_stays_under_base (NEXTAUTH_URL : option string)
        (url baseUrl : string) :
  let base := or_else NEXTAUTH_URL baseUrl in
  startsWith (redirect NEXTAUTH_URL url baseUrl) base = true
  /\ (redirect NEXTAUTH_URL url baseUrl = base ++ url
      \/ redirect NEXTAUTH_URL url baseUrl = url
      \/ redirect NEXTAUTH_URL url baseUrl = base).
Proof.
  intros base. split; [apply redirect_prefix |].
  unfold redirect. fold base.
  destruct (startsWith url "/"); [now left |].
  destruct (startsWith url base); auto.
Qed.

(** When the base does not itself begin with a slash, redirecting an
    address that the callback returned gives the same address again. *)
Theorem redirect_idempotent (NEXTAUTH_URL : option string)
        (url baseUrl : string) :
  startsWith (or_else NEXTAUTH_URL baseUrl) "/" = false ->
  redirect NEXTAUTH_URL (redirect NEXTAUTH_URL url baseUrl) baseUrl
  = redirect NEXTAUTH_URL url baseUrl.
Proof.
  intros Hbase.
  pose proof (redirect_prefix NEXTAUTH_URL url baseUrl) as Hu.
  set (r := redirect NEXTAUTH_URL url baseUrl) in *.
  unfold redirect at 1. rewrite Hu.
  destruct (startsWith r "/") eqn:Hr; [| reflexivity].
  (* [r] begins with both the base and a slash: the base is empty *)
  apply startsWith_spec in Hu as [t Ht]. apply startsWith_spec in Hr as [t' Ht'].
  destruct (or_else NEXTAUTH_URL baseUrl) as [|c base] eqn:B.
  - reflexivity.
  - exfalso. rewrite Ht in Ht'. simpl in Ht'. injection Ht' as -> _.
    assert (E : startsWith (String "/" base) "/" = true)
      by (apply startsWith_spec; now exists base).
    congruence.
Qed.

Lemma redirect_idempotent_witness :
  redirect (Some "https://app.example")
           (redirect (Some "https://app.example") "/dashboard" "http://localhost:3000")
           "http://localhost:3000"
  = "https://app.example/dashboard".
Proof.
  rewrite redirect_idempotent; reflexivity.
Defined.

End AuthFacts.

(** ** The development server session *)
Module SessionFacts.
Import ViteSession SessionShape.

Lemma layers_of_S (n : nat) :
  layers_of (S n) = (layers_of n ++ [Middlewares n; Fallback n])%list.
Proof.
  unfold layers_of. rewrite seq_S, flat_map_app. simpl. reflexivity.
Qed.

Lemma length_layers_of (n : nat) : List.length (layers_of n) = 2 * n.
Proof.
  induction n as [|n IH]; [reflexivity |].
  rewrite layers_of_S, length_app, IH. simpl. lia.
Qed.

Lemma tidy_fresh : tidy fresh.
Proof.
  unfold tidy, fresh. simpl. split; [| split; [| split]].
  - discriminate.
  - intros v. split; [intros [] | intros [H _]; lia].
  - constructor.
  - reflexivity.
Qed.

Lemma tidy_create (a : Attempt) (s : Session) :
  currentViteServer s = None -> tidy s -> tidy (snd (create a s)).
Proof.
  intros Hc T. unfold create.
  destruct (create_resolves a); simpl; [| exact T].
  destruct T as (I1 & I2 & I3 & I4).
  unfold tidy. simpl. split; [| split; [| split]].
  - now intros v [= <-].
  - intros v. split.
    + intros H. apply I2 in H as [H _]. split; [lia |].
      intros [= E]. lia.
    + intros [H N]. apply I2. split; [| now rewrite Hc].
      assert (v <> created s) by congruence. lia.
  - exact I3.
  - now rewrite layers_of_S, I4.
Qed.

Lemma tidy_setupVite (a : Attempt) (s : Session) :
  tidy s -> tidy (snd (setupVite a s)).
Proof.
  intros T. unfold setupVite.
  destruct (currentViteServer s) as [v|] eqn:Hc; [| now apply tidy_create].
  destruct (close_resolves a).
  - apply tidy_create; [reflexivity |].
    destruct T as (I1 & I2 & I3 & I4).
    unfold tidy. simpl. split; [| split; [| split]].
    + discriminate.
    + intros x. split.
      * intros H. split; [| discriminate].
        apply in_app_or in H as [H | [<- | []]].
        -- now apply I2 in H.
        -- specialize (I1 v Hc). lia.
      * intros [H _]. apply in_or_app.
        destruct (Nat.eq_dec x v) as [-> | N]; [right; now left |].
        left. apply I2. split; [exact H |]. rewrite Hc. congruence.
    + apply NoDup_app; [exact I3 | repeat constructor; simpl; tauto |].
      intros x Hx [<- | []]. apply I2 in Hx as [_ Hx]. now rewrite Hc in Hx.
    + exact I4.
  - destruct T as (I1 & I2 & I3 & I4).
    unfold tidy. simpl. rewrite <- Hc.
    split; [exact I1 | split; [exact I2 | split; [exact I3 | exact I4]]].
Qed.

Lemma tidy_setups (attempts : list Attempt) (s : Session) :
  tidy s -> tidy (setups attempts s).
Proof.
  revert s. induction attempts as [|a l IH]; intros s T; [exact T |].
  apply IH. now apply tidy_setupVite.
Qed.

(** However often [setupVite] is called and whichever of its steps
    fail, no session is leaked: every server ever created has been
    closed, except the current one, which is the newest and not closed;
    no server is closed twice. *)
Theorem session_never_leaks (attempts : list Attempt) :
  let s := setups attempts fresh in
  (forall v, v < created s ->
             In v (closed s) \/ currentViteServer s = Some v)
  /\ (forall v, currentViteServer s = Some v ->
                S v = created s /\ ~ In v (closed s))
  /\ NoDup (closed s).
Proof.
  intros s. destruct (tidy_setups attempts fresh tidy_fresh)
    as (I1 & I2 & I3 & _). fold s in I1, I2, I3.
  split; [| split; [| exact I3]].
  - intros v Hv.
    destruct (currentViteServer s) as [c|] eqn:Hc.
    + destruct (Nat.eq_dec c v) as [-> | N]; [now right |].
      left. apply I2. split; [exact Hv | congruence].
    + left. apply I2. split; [exact Hv | discriminate].
  - intros v Hv. split; [now apply I1 |].
    intros H. apply I2 in H as [_ H]. contradiction.
Qed.

(** [setupVite] only ever adds layers to the application: after any
    calls the layers are those of every server created, oldest first,
    two for each.  Once a second server was created, the layers that
    requests meet first are still those of the first server, which is
    closed. *)
Theorem layers_accumulate (attempts : list Attempt) :
  let s := setups attempts fresh in
  layers s = layers_of (created s)
  /\ List.length (layers s) = 2 * created s
  /\ (2 <= created s ->
      firstn 2 (layers s) = [Middlewares 0; Fallback 0]
      /\ In 0 (closed s)).
Proof.
  intros s. destruct (tidy_setups attempts fresh tidy_fresh)
    as (I1 & I2 & _ & I4). fold s in I1, I2, I4.
  split; [exact I4 | split; [rewrite I4; apply length_layers_of |]].
  intros H. split.
  - rewrite I4. destruct (created s) as [|[|n]]; [lia | lia |].
    unfold layers_of. rewrite <- cons_seq. reflexivity.
  - apply I2. split; [lia |]. intros Hc. apply I1 in Hc. lia.
Qed.

End SessionFacts.

(** ** Retrying database operations *)
Module DbFacts.
Import JsString JsText Db StringFacts TextFacts.

Lemma or_else_empty (x : string) : or_else (Some x) "" = x.
Proof. now destruct x. Qed.

(** The verdict on a message survives any text put around the message,
    with the same error code, and does not depend on the case of the
    letters. *)
Theorem connection_error_in_context (m : string) (c : option string) :
  isConnectionError (Some (mkDbError (Some m) c)) = true ->
  (forall a b,
      isConnectionError (Some (mkDbError (Some (a ++ m ++ b)) c)) = true)
  /\ isConnectionError (Some (mkDbError (Some (toLowerCase m)) c)) = true.
Proof.
  intros H. split.
  - intros a b. unfold isConnectionError in *.
    cbn [message code option_map] in *.
    rewrite or_else_empty in *. rewrite !toLowerCase_append.
    repeat match type of H with
           | (_ || _) = true => apply orb_true_iff in H; destruct H as [H|H]
           end;
      first [ rewrite (includes_around (toLowerCase a) _ (toLowerCase b) _ H)
            | rewrite H ];
      rewrite ?orb_true_r; reflexivity.
  - unfold isConnectionError in *. cbn [message code option_map] in *.
    now rewrite toLowerCase_idempotent.
Qed.

Lemma connection_error_in_context_witness :
  isConnectionError
    (Some (mkDbError (Some "PrismaClientKnownRequestError: ECONNREFUSED 127.0.0.1:5432")
                     None)) = true.
Proof.
  destruct (connection_error_in_context "ECONNREFUSED" None eq_refl) as [H _].
  exact (H "PrismaClientKnownRequestError: " " 127.0.0.1:5432").
Defined.

Lemma total_app (a b : list N) : total (a ++ b) = (total a + total b)%N.
Proof.
  unfold total. induction a as [|x a IH]; simpl; [reflexivity |].
  rewrite IH. lia.
Qed.

(** The delays [baseDelay * 2^j] for [j = a .. a+n-1] add up to
    [baseDelay * 2^a * (2^n - 1)]. *)
Lemma total_backoff (baseDelay : N) (a n : nat) :
  total (map (fun j => (baseDelay * 2 ^ N.of_nat j)%N) (seq a n))
  = (baseDelay * 2 ^ N.of_nat a * (2 ^ N.of_nat n - 1))%N.
Proof.
  revert a. induction n as [|n IH]; intros a.
  - simpl. lia.
  - cbn [seq map]. unfold total in *. cbn [fold_right]. rewrite IH.
    rewrite !Nat2N.inj_succ, !N.pow_succ_r'.
    assert (P : (1 <= 2 ^ N.of_nat n)%N)
      by (apply N.lt_pred_le, N.neq_0_lt_0, N.pow_nonzero; lia).
    remember (2 ^ N.of_nat n)%N as p. remember (2 ^ N.of_nat a)%N as q.
    replace (2 * p - 1)%N with (2 * (p - 1) + 1)%N by lia.
    ring.
Qed.

Section Retry.
Variable T : Type.
Implicit Types (operation : nat -> settled T) (t : Trace).

Lemma attempts_shape operation (maxRetries : nat) (baseDelay : N)
      (context : string) (fuel : nat) :
  forall (attempt : nat) (lastError : thrown) t,
    attempt + fuel = S maxRetries -> 0 < fuel ->
    exists n,
      attempt + n <= maxRetries
      /\ calls (snd (attempts operation maxRetries baseDelay context
                       fuel attempt lastError t))
         = calls t + n + 1
      /\ sleeps (snd (attempts operation maxRetries baseDelay context
                        fuel attempt lastError t))
         = (sleeps t ++
            map (fun j => (baseDelay * 2 ^ N.of_nat j)%N) (seq attempt n))%list
      /\ (forall j, attempt <= j < attempt + n ->
            exists e, operation j = Failed e
                      /\ isConnectionError (as_error e) = true)
      /\ match fst (attempts operation maxRetries baseDelay context
                      fuel attempt lastError t) with
         | Returned v => operation (attempt + n) = Fulfilled v
         | Thrown e =>
             operation (attempt + n) = Failed e
             /\ (isConnectionError (as_error e) = false
                 \/ attempt + n = maxRetries)
         end.
Proof.
  induction fuel as [|fuel IH]; intros attempt lastError t Hf Hpos; [lia |].
  cbn [attempts]. destruct (operation attempt) as [v | e] eqn:Op.
  - exists 0. rewrite Nat.add_0_r. simpl. rewrite app_nil_r.
    repeat split; try lia. exact Op.
  - destruct (isConnectionError (as_error e)) eqn:Conn;
      destruct (Nat.eqb_spec attempt maxRetries) as [Hm | Hm]; cbn [negb orb].
    + exists 0. rewrite Nat.add_0_r. simpl. rewrite app_nil_r.
      repeat split; try lia; auto.
    + destruct (IH (S attempt) e
                  (mkTrace (S (calls t))
                     (sleeps t ++ [(baseDelay * 2 ^ N.of_nat attempt)%N])
                     (console t ++
                      [console_warn
                         ("Database connection error on attempt " ++
                          nat_to_string (attempt + 1) ++ "/" ++
                          nat_to_string (maxRetries + 1) ++ " for " ++
                          dquote ++ context ++ dquote ++ ". Retrying in " ++
                          JsNumber.to_string (baseDelay * 2 ^ N.of_nat attempt) ++
                          "ms...")
                         (errorMessage e) (errorCode e)])))
        as (n & Hn & Hc & Hs & Hj & Hr); [lia | lia |].
      exists (S n). rewrite Hc, Hs. cbn [calls sleeps].
      split; [lia | split; [lia | split; [| split]]].
      * rewrite <- app_assoc. reflexivity.
      * intros j Hj'. destruct (Nat.eq_dec j attempt) as [-> | N].
        -- eauto.
        -- apply Hj. lia.
      * replace (attempt + S n) with (S attempt + n) by lia. exact Hr.
    + exists 0. rewrite Nat.add_0_r. simpl. rewrite app_nil_r.
      repeat split; try lia; auto.
    + exists 0. rewrite Nat.add_0_r. simpl. rewrite app_nil_r.
      repeat split; try lia; auto.
Qed.


(** An operation that rejects with [undefined]: that is what
    [retryOperation] throws, after one call and no wait. *)
Lemma rejection_with_undefined_is_rethrown :
  retryOperation (T := T) (fun _ => Failed undefined) 3 1000 "user.findMany"
  = (Thrown undefined, mkTrace 1 [] []).
Proof. reflexivity. Qed.

Lemma retry_sleeps operation (maxRetries : nat) (baseDelay : N)
      (context : string) :
  exists n,
    n <= maxRetries
    /\ calls (snd (retryOperation operation maxRetries baseDelay context)) = n + 1
    /\ sleeps (snd (retryOperation operation maxRetries baseDelay context))
       = map (fun j => (baseDelay * 2 ^ N.of_nat j)%N) (seq 0 n).
Proof.
  unfold retryOperation.
  destruct (attempts_shape operation maxRetries baseDelay context
              (S maxRetries) 0 undefined (mkTrace 0 [] []))
    as (n & Hn & Hc & Hs & _); [lia | lia |].
  exists n. simpl in *. split; [lia | split; [exact Hc | exact Hs]].
Qed.

(** The waits of one [retryOperation] add up to
    [baseDelay * (2^n - 1)] for the number [n] of retries made, so to at
    most [baseDelay * (2^maxRetries - 1)]. *)
Theorem retry_total_wait operation (maxRetries : nat) (baseDelay : N)
        (context : string) :
  let waits :=
    sleeps (snd (retryOperation operation maxRetries baseDelay context)) in
  total waits = (baseDelay * (2 ^ N.of_nat (List.length waits) - 1))%N
  /\ List.length waits <= maxRetries
  /\ (total waits <= baseDelay * (2 ^ N.of_nat maxRetries - 1))%N.
Proof.
  intros waits.
  destruct (retry_sleeps operation maxRetries baseDelay context)
    as (n & Hn & _ & Hs).
  fold waits in Hs.
  assert (L : List.length waits = n) by (rewrite Hs, length_map; apply length_seq).
  rewrite L. split; [| split; [exact Hn |]].
  - rewrite Hs, total_backoff. simpl. lia.
  - rewrite Hs, total_backoff. simpl. rewrite N.mul_1_r.
    apply N.mul_le_mono_l.
    assert (2 ^ N.of_nat n <= 2 ^ N.of_nat maxRetries)%N
      by (apply N.pow_le_mono_r; lia).
    lia.
Qed.

(** Every database operation goes through the middleware: it is tried at
    most 4 times and waits 0, 1, 3 or 7 seconds in total. *)
Theorem middleware_budget (model action : option string)
        (next : nat -> settled T) :
  let t := snd (middleware model action next) in
  calls t <= 4
  /\ (total (sleeps t) = 0 \/ total (sleeps t) = 1000 \/
      total (sleeps t) = 3000 \/ total (sleeps t) = 7000)%N.
Proof.
  intros t. unfold t, middleware.
  set (ctx := match model with Some m => _ | None => _ end).
  destruct (retry_sleeps next 3 1000%N ctx) as (n & Hn & Hc & Hs).
  rewrite Hc, Hs. split; [lia |].
  destruct n as [|[|[|[|n]]]]; [auto | auto | auto | | lia].
  right. right. right. reflexivity.
Qed.

End Retry.
End DbFacts.

(** ** Sets in insertion order *)
Module SetFacts.
Import JsSet.

Lemma has_spec (set : list string) (x : string) :
  has set x = true <-> In x set.
Proof.
  unfold has. rewrite existsb_exists. split.
  - intros (y & Hy & E). apply String.eqb_eq in E. now subst.
  - intros H. exists x. split; [exact H | apply String.eqb_refl].
Qed.

Lemma has_false (set : list string) (x : string) :
  has set x = false <-> ~ In x set.
Proof.
  rewrite <- has_spec. destruct (has set x); split; congruence.
Qed.

Lemma In_add (set : list string) (x y : string) :
  In y (add set x) <-> In y set \/ y = x.
Proof.
  unfold add. destruct (has set x) eqn:H.
  - apply has_spec in H. split; [auto | intros [? | ->]; auto].
  - rewrite in_app_iff. simpl. intuition.
Qed.

Lemma NoDup_add (set : list string) (x : string) :
  NoDup set -> NoDup (add set x).
Proof.
  intros ND. unfold add. destruct (has set x) eqn:H; [exact ND |].
  apply has_false in H.
  apply NoDup_app; [exact ND | repeat constructor; simpl; tauto |].
  intros y Hy [<- | []]. contradiction.
Qed.

Lemma fold_add (items set : list string) :
  NoDup set ->
  NoDup (fold_left add items set)
  /\ (forall y, In y (fold_left add items set) <-> In y set \/ In y items).
Proof.
  revert set. induction items as [|x l IH]; intros set ND; simpl.
  - split; [exact ND | intuition].
  - destruct (IH (add set x) (NoDup_add set x ND)) as [N I].
    split; [exact N |]. intros y. rewrite I, In_add. intuition.
Qed.

Lemma fold_add_fresh (items set : list string) :
  NoDup (set ++ items) -> fold_left add items set = (set ++ items)%list.
Proof.
  revert set. induction items as [|x l IH]; intros set ND; simpl.
  - now rewrite app_nil_r.
  - assert (Hx : has set x = false).
    { apply has_false. intros Hin.
      apply NoDup_remove_2 in ND. apply ND. apply in_or_app. now left. }
    unfold add at 2. rewrite Hx. rewrite IH; rewrite <- app_assoc; auto.
Qed.

End SetFacts.

(** ** The route scan *)
Module RouteScanFacts.
Import JsString Bundles RouteScan StringFacts SetFacts.

Section Scan.
Variable join : string -> string -> string.

Lemma visit_found :
  forall (n : fsnode) (dir ext : string) (files : list string),
    visit join dir ext n files = (files ++ visit join dir ext n [])%list
    /\ Forall (fun p => endsWith p ext = true) (visit join dir ext n []).
Proof.
  fix IH 1. intros [name | name children] dir ext files.
  - cbn [visit]. cbv zeta. destruct (endsWith (join dir name) ext) eqn:E.
    + split; [reflexivity |]. repeat constructor. exact E.
    + split; [now rewrite app_nil_r | constructor].
  - cbn [visit]. cbv zeta. revert files.
    induction children as [|c cs IHc]; intros files.
    + split; [now rewrite app_nil_r | constructor].
    + cbn [fold_left].
      destruct (IH c (join dir name) ext files) as [E1 F1].
      destruct (IH c (join dir name) ext []) as [_ F0].
      destruct (IHc (visit join (join dir name) ext c files)) as [E2 F2].
      destruct (IHc (visit join (join dir name) ext c [])) as [E3 _].
      split.
      * rewrite E2, E3, E1, app_assoc. reflexivity.
      * rewrite E3. apply Forall_app. split; [exact F0 | exact F2].
Qed.

(** [getAllFiles] only appends to the array it is given, what it appends
    does not depend on that array, and every path it appends ends with
    the extension; this holds whatever [path.join] makes of the
    directory and the entry names. *)
Theorem getAllFiles_appends (dir ext : string) (entries : list fsnode)
        (files : list string) :
  getAllFiles join dir ext entries files
  = (files ++ getAllFiles join dir ext entries [])%list
  /\ Forall (fun p => endsWith p ext = true)
            (getAllFiles join dir ext entries []).
Proof.
  unfold getAllFiles. revert files.
  induction entries as [|c cs IHc]; intros files.
  - split; [now rewrite app_nil_r | constructor].
  - cbn [fold_left].
    destruct (visit_found c dir ext files) as [E1 _].
    destruct (visit_found c dir ext []) as [_ F0].
    destruct (IHc (visit join dir ext c files)) as [E2 F2].
    destruct (IHc (visit join dir ext c [])) as [E3 _].
    split.
    + rewrite E2, E3, E1, app_assoc. reflexivity.
    + rewrite E3. apply Forall_app. split; [exact F0 | exact F2].
Qed.

End Scan.

(** A scan of [/app/client], with the paths put together as [path.join]
    does for a resolved directory and plain entry names. *)
Lemma getAllFiles_example :
  getAllFiles path_join "/app/client" ".tsx"
    [File "index.html";
     Dir "src" [File "App.tsx"; File "main.tsx"; Dir "lib" [File "utils.ts"];
                Dir "pages" [File "Home.tsx"]]]
    []
  = ["/app/client/src/App.tsx"; "/app/client/src/main.tsx";
     "/app/client/src/pages/Home.tsx"].
Proof. reflexivity. Qed.

(** The deduplication keeps every route, each once; a list without
    repetitions comes back unchanged, so deduplicating twice is
    deduplicating once. *)
Theorem uniqueRoutes_dedup (routes : list string) :
  NoDup (uniqueRoutes routes)
  /\ (forall r, In r (uniqueRoutes routes) <-> In r routes)
  /\ (NoDup routes -> uniqueRoutes routes = routes)
  /\ uniqueRoutes (uniqueRoutes routes) = uniqueRoutes routes.
Proof.
  unfold uniqueRoutes, JsSet.of_list.
  destruct (fold_add routes [] (NoDup_nil _)) as [N I].
  split; [exact N | split; [| split]].
  - intros r. rewrite I. simpl. intuition.
  - intros ND. now rewrite fold_add_fresh.
  - now rewrite (fold_add_fresh (fold_left JsSet.add routes []) []).
Qed.

End RouteScanFacts.

(** ** The runtime error filter *)
Module OverlayFacts.
Import JsString JsText ErrorLog Overlay SetFacts.

Lemma reports_shape (errors : list Error) (c : Cache) :
  loggedErrors (reports errors c)
  = fold_left JsSet.add (map getErrorKey errors) (loggedErrors c)
  /\ (timers c = loggedErrors c ->
      timers (reports errors c) = loggedErrors (reports errors c))
  /\ (List.length (console c) = 2 * List.length (loggedErrors c) ->
      List.length (console (reports errors c))
      = 2 * List.length (loggedErrors (reports errors c))).
Proof.
  revert c. induction errors as [|e es IH]; intros c; [simpl; auto |].
  change (reports (e :: es) c) with (reports es (snd (filter_error e c))).
  destruct (IH (snd (filter_error e c))) as (L & Tm & Cn).
  unfold filter_error in *. cbn [map fold_left].
  destruct (JsSet.has (loggedErrors c) (getErrorKey e)) eqn:H; cbn [snd] in *.
  - unfold JsSet.add at 2. rewrite H. auto.
  - split; [exact L | split].
    + intros E. apply Tm. cbn [timers loggedErrors].
      unfold JsSet.add. rewrite H. now rewrite E.
    + intros E. apply Cn. cbn [console loggedErrors].
      unfold JsSet.add. rewrite H. rewrite !length_app. simpl. lia.
Qed.

(** In a burst of reports with no timer firing in between, every error
    key is printed once, whatever the number of times it is reported: the
    keys remembered are those of the errors reported, each once, two
    console lines and one pending timer for each; and every report is
    answered [true]. *)
Theorem burst_prints_each_key_once (errors : list Error) :
  let c := reports errors empty in
  loggedErrors c = JsSet.of_list (map getErrorKey errors)
  /\ NoDup (loggedErrors c)
  /\ (forall k, In k (loggedErrors c) <-> In k (map getErrorKey errors))
  /\ List.length (console c) = 2 * List.length (loggedErrors c)
  /\ timers c = loggedErrors c
  /\ forall e c', fst (filter_error e c') = true.
Proof.
  intros c. destruct (reports_shape errors empty) as (L & Tm & Cn).
  fold c in L, Tm, Cn. simpl in L.
  destruct (fold_add (map getErrorKey errors) [] (NoDup_nil _)) as [N I].
  split; [exact L | split; [now rewrite L | split; [| split; [| split]]]].
  - intros k. rewrite L, I. simpl. intuition.
  - now apply Cn.
  - now apply Tm.
  - intros e c'. unfold filter_error.
    now destruct (JsSet.has (loggedErrors c') (getErrorKey e)).
Qed.

(** An error is printed again once the timer of its key has fired: here
    for the error that opened a burst, whose timer is the oldest. *)
Theorem expiry_prints_again (first : Error) (others : list Error) :
  let c := expire (reports (first :: others) empty) in
  JsSet.has (loggedErrors c) (getErrorKey first) = false
  /\ console (snd (filter_error first c))
     = (console c ++ [("Vite Runtime Error:", Some (message first));
                      ("Stack:", stack first)])%list.
Proof.
  intros c.
  assert (H : JsSet.has (loggedErrors c) (getErrorKey first) = false).
  { unfold c.
    destruct (reports_shape (first :: others) empty) as (L & Tm & _).
    specialize (Tm eq_refl). unfold expire. rewrite Tm, L.
    change (fold_left JsSet.add (map getErrorKey (first :: others))
              (loggedErrors empty))
      with (fold_left JsSet.add (map getErrorKey others) [getErrorKey first]).
    assert (Hd : exists rest,
               fold_left JsSet.add (map getErrorKey others) [getErrorKey first]
               = getErrorKey first :: rest).
    { generalize (map getErrorKey others) as ks.
      assert (G : forall ks set, exists rest,
                   fold_left JsSet.add ks (getErrorKey first :: set)
                   = getErrorKey first :: rest).
      { induction ks as [|k ks IH]; intros set; simpl; [eauto |].
        unfold JsSet.add at 2.
        destruct (JsSet.has (getErrorKey first :: set) k); [apply IH |].
        apply (IH (set ++ [k])%list). }
      intros ks. apply G. }
    destruct Hd as [rest ->]. cbn [loggedErrors].
    apply has_false. unfold JsSet.delete. rewrite filter_In.
    intros [_ Hn]. now rewrite String.eqb_refl in Hn. }
  split; [exact H |]. unfold filter_error. now rewrite H.
Qed.

End OverlayFacts.

(** ** The health check *)
Module PublishFacts.
Import Publish.

Lemma rounds_spec (fetch_ok : nat -> bool) (sleepMs : N) (fuel : nat) :
  forall i,
    let (ok, slept) := rounds fetch_ok sleepMs fuel i in
    slept = repeat sleepMs (List.length slept)
    /\ (forall j, i <= j < i + List.length slept -> fetch_ok j = false)
    /\ (if ok
        then List.length slept < fuel
             /\ fetch_ok (i + List.length slept) = true
        else List.length slept = fuel).
Proof.
  induction fuel as [|fuel IH]; intros i; cbn [rounds].
  - repeat split. intros j Hj. simpl in Hj. lia.
  - destruct (fetch_ok i) eqn:F.
    + simpl. rewrite Nat.add_0_r. repeat split; [| lia | exact F].
      intros j Hj. lia.
    + specialize (IH (S i)).
      destruct (rounds fetch_ok sleepMs fuel (S i)) as [ok slept].
      destruct IH as (R & Hj & Hok). cbn [List.length repeat].
      split; [now rewrite <- R | split].
      * intros j Hj'. destruct (Nat.eq_dec j i) as [-> | N]; [exact F |].
        apply Hj. lia.
      * destruct ok.
        -- destruct Hok as [Hl Ht]. split; [lia |].
           now replace (i + S (List.length slept)) with (S i + List.length slept) by lia.
        -- lia.
Qed.

(** [healthcheck] answers [true] exactly when one of the first
    [attempts] fetches succeeds; it has then slept once for every failed
    fetch before the first success, and otherwise [attempts] times, the
    last sleep coming after the last failed fetch. *)
Theorem healthcheck_first_success (url : string) (fetch_ok : nat -> bool)
        (attempts : nat) (sleepMs : N) :
  let ok := fst (fst (healthcheck url fetch_ok attempts sleepMs)) in
  let slept := snd (fst (healthcheck url fetch_ok attempts sleepMs)) in
  (ok = true <-> exists i, i < attempts /\ fetch_ok i = true)
  /\ slept = repeat sleepMs (List.length slept)
  /\ (forall j, j < List.length slept -> fetch_ok j = false)
  /\ (ok = true -> fetch_ok (List.length slept) = true)
  /\ (ok = false -> List.length slept = attempts).
Proof.
  unfold healthcheck. cbn [fst snd].
  pose proof (rounds_spec fetch_ok sleepMs attempts 0) as H.
  destruct (rounds fetch_ok sleepMs attempts 0) as [ok slept].
  destruct H as (R & Hj & Hok). cbn [fst snd].
  assert (Hfail : forall j, j < List.length slept -> fetch_ok j = false)
    by (intros j Hlt; apply Hj; lia).
  split; [| split; [exact R | split; [exact Hfail | split]]].
  - split.
    + intros ->. destruct Hok as [Hl Ht]. exists (List.length slept). auto.
    + intros (i & Hi & Hti). destruct ok; [reflexivity |].
      rewrite (Hfail i) in Hti by lia. discriminate.
  - intros ->. now destruct Hok.
  - intros ->. exact Hok.
Qed.

End PublishFacts.

(** ** The error handler *)
Module ErrorHandlerFacts.
Import ErrorLog ErrorHandler.

(** The response that the error handler leaves does not depend on the
    error, nor on the request: neither message nor stack reach the
    client.  It answers only a response that has not been sent, so
    handling a second error for the same response changes nothing. *)
Theorem error_response_hides_error (err err' : Error)
        (method path method' path' : string) (res : Res) :
  snd (handle err method path res) = snd (handle err' method' path' res)
  /\ headersSent (snd (handle err method path res)) = true
  /\ snd (handle err' method' path' (snd (handle err method path res)))
     = snd (handle err method path res)
  /\ (headersSent res = true -> snd (handle err method path res) = res).
Proof.
  unfold handle. cbn [snd].
  destruct (headersSent res) eqn:H.
  - rewrite H. repeat split; auto.
  - cbn [headersSent]. repeat split; auto. discriminate.
Qed.

End ErrorHandlerFacts.

(** ** Start-up in production *)
Module StartupFacts.
Import JsString JsNumber Bundles Backend.

Section Facts.
Variable route : Type.

(** The first load, caught, sets up nothing but routes and bundles. *)
Lemma first_load_flags (cwd : string) (r : Reply route) :
  let w1 := snd (loadBackend cwd r boot) in
  watching w1 = false /\ vite w1 = false /\ static_files w1 = false
  /\ listening w1 = None.
Proof.
  unfold loadBackend, build, import, call, bind, modify, throw, ret.
  simpl.
  destruct (build_ok r); simpl; auto.
  destruct (imported r) as [backend|]; simpl; auto.
  destruct (registerRoutes backend) as [reg|]; simpl; auto.
  destruct (reg []) as [s [y|]]; simpl; auto.
Qed.

(** Outside development neither the Vite server nor the watcher is set
    up, whatever happens to the first load.  With a port that
    [app.listen] accepts, the listener is asked for before the static
    files are looked for: a missing client build directory ends
    start-up with the [serveStatic] error, and with the directory there
    the static files are installed and start-up succeeds unless the
    socket cannot be bound.  With a port that [app.listen] refuses,
    start-up ends at [app.listen], before [serveStatic]. *)
Theorem production_startup (env : Env) (r : Reply route) :
  development env = false ->
  let w := snd (main env r boot) in
  let port := Port.parseInt (or_else (PORT env) "3000") in
  watching w = false /\ vite w = false
  /\ (forall p, Port.validatePort port = Some p ->
        listening w = Some (Num p)
        /\ (public_built env = false ->
              fst (main env r boot) = Thrown StaticDirMissing
              /\ static_files w = false)
        /\ (public_built env = true ->
              static_files w = true
              /\ fst (main env r boot)
                 = if bind_ok env then Returned tt else Thrown ListenError))
  /\ (Port.validatePort port = None ->
        fst (main env r boot) = Thrown BadPort
        /\ listening w = None /\ static_files w = false).
Proof.
  intros Hd w port.
  destruct (first_load_flags (cwd env) r) as (W & V & S & L).
  unfold w, main, listen. fold port. rewrite Hd. cbn [negb].
  unfold listening_event, serveStatic, catch, bind, modify, throw, ret.
  destruct (loadBackend (cwd env) r boot) as [[[]|x] w1];
    cbn [snd] in W, V, S, L;
    (destruct (Port.validatePort port) as [p|]; simpl;
     [ destruct (public_built env), (bind_ok env); simpl;
       (split; [exact W | split; [exact V | split; [| discriminate]]]);
       intros q Hq; injection Hq as <-;
       (split; [reflexivity | split; intros Hb]);
       try discriminate Hb; split; auto
     | split; [exact W | split; [exact V | split; [discriminate |]]];
       intros _; auto ]).
Qed.

End Facts.

(** A port setting that [app.listen] refuses: start-up ends there, in
    production and in development alike, with nothing else set up. *)
Lemma refused_port_ends_startup :
  let r := mkReply 1700000000000%N true (Some hello) in
  let production := mkEnv "/app" (Some "70000") false true true true "10:00:00 AM" in
  let development := mkEnv "/app" (Some "abc") true true true true "10:00:00 AM" in
  fst (main production r boot) = Thrown BadPort
  /\ static_files (snd (main production r boot)) = false
  /\ fst (main development r boot) = Thrown BadPort
  /\ watching (snd (main development r boot)) = false
  /\ listening (snd (main development r boot)) = None.
Proof. intros r production development. repeat split; reflexivity. Qed.

Lemma production_startup_witness :
  let env := mkEnv "/app" (Some "8080") false false true true "10:00:00 AM" in
  let r := mkReply 1700000000000%N true (Some hello) in
  fst (main env r boot) = Thrown StaticDirMissing
  /\ listening (snd (main env r boot)) = Some (Num 8080).
Proof.
  intros env r.
  destruct (production_startup string env r eq_refl) as (_ & _ & H & _).
  destruct (H 8080%N eq_refl) as (L & M & _).
  split; [now apply M | exact L].
Defined.

End StartupFacts.
